(** * The federated-averaging coordination server of [grpc_expts/server_benchmark.py]

    A shallow embedding of [CommunicationServicer]: the identity registry
    ([GetID], [GetSize], [SendBye]), the snapshot store ([GetModel]), the
    parameter aggregator ([_compute_global_average]) and the barrier of
    [SendMessage], whose critical sections are the atomic steps of a small
    interleaving semantics. *)

From Stdlib Require Import ZArith List String Ascii HexString Lia.
From Stdlib Require Import Floats.PrimFloat Numbers.Cyclic.Int63.Uint63.
From stdpp Require Import gmap strings list fin_maps.
Import ListNotations.

Local Open Scope string_scope.
Local Open Scope list_scope.
Local Open Scope nat_scope.

(** ** Python values the servicer handles *)

(** The two exceptions the servicer's own statements can raise: a missing
    dictionary key, and an attribute read before its first assignment. *)
Inductive exn : Type :=
  | KeyError (key : string)
  | AttributeError (attr : string).

(** [Constants]: the two values the ["status"] entry of a session takes. *)
Inductive Status : Type := STATUS_ALIVE | STATUS_DEAD.

(** [sub in s] on Python strings. *)
Fixpoint contains (sub s : string) : bool :=
  if String.prefix sub s then true
  else match s with
       | EmptyString => false
       | String _ s' => contains sub s'
       end.

(** [hash(n)] of a Python integer: reduction modulo the Mersenne prime
    [2^61 - 1] with the sign kept, and [-1] avoided. *)
Definition hash (n : Z) : Z :=
  let r := Z.rem n (2 ^ 61 - 1) in
  if (r =? -1)%Z then (-2)%Z else r.

(** [hex(n)]. *)
Definition hex (n : Z) : string := HexString.of_Z n.

(** [float(n)] for a length. *)
Definition float_of_len (n : nat) : float :=
  PrimFloat.of_uint63 (Uint63.of_Z (Z.of_nat n)).

(** *** Ordered dictionaries

    An [OrderedDict] keyed by parameter name: the items in insertion
    order.  A well-formed dictionary holds each key once. *)
Definition dict (V : Type) : Type := list (string * V).

Definition keys {V} (d : dict V) : list string := map fst d.

Definition wf_dict {V} (d : dict V) : Prop := NoDup (keys d).

(** [d.get(k)], [None] when [k not in d]. *)
Fixpoint dict_get {V} (k : string) (d : dict V) : option V :=
  match d with
  | [] => None
  | (k', v) :: d' => if String.eqb k k' then Some v else dict_get k d'
  end.

(** [d[k] = v]: the value is replaced in place when the key is present,
    and the item is added at the end otherwise. *)
Fixpoint dict_set {V} (k : string) (v : V) (d : dict V) : dict V :=
  match d with
  | [] => [(k, v)]
  | (k', v') :: d' =>
      if String.eqb k k' then (k', v) :: d' else (k', v') :: dict_set k v d'
  end.

(** *** Tensors

    The aggregator uses two operations of [torch.Tensor]: elementwise
    addition ([+=]) and elementwise division by a Python float ([/]).
    [clone] and [to(device)] keep the values and are invisible here. *)
Class Tensor (T : Type) : Type := {
  tensor_add : T -> T -> T;
  tensor_div : T -> float -> T
}.

(** Zero-dimensional tensors of binary64 values. *)
#[export] Instance scalar_tensor : Tensor float := {
  tensor_add := PrimFloat.add;
  tensor_div := PrimFloat.div
}.

(** Dense tensors of one shape as the list of their elements.  On
    tensors of different shapes torch broadcasts [+=] or refuses it; those
    are outside this instance. *)
#[export] Instance dense_tensor : Tensor (list float) := {
  tensor_add := fun a b => zip_with PrimFloat.add a b;
  tensor_div := fun a c => map (fun x => PrimFloat.div x c) a
}.

(** ** The parameter aggregator *)

Section Aggregator.
Context {T : Type} `{Tensor T}.

(** One turn of the inner loop of [_compute_global_average]. *)
Definition accumulate (avg_state_dict : dict T) (item : string * T) : dict T :=
  let '(name, param) := item in
  if contains "bn" name then avg_state_dict
  else match dict_get name avg_state_dict with
       | None => dict_set name param avg_state_dict
       | Some acc => dict_set name (tensor_add acc param) avg_state_dict
       end.

(** The summing loops: every local model, every item of it. *)
Definition sum_params (local_averages : list (dict T)) : dict T :=
  fold_left (fun avg state_dict => fold_left accumulate state_dict avg)
            local_averages [].

(** The dividing loop, which assigns to each key it visits. *)
Definition divide_params (n : nat) (avg_state_dict : dict T) : dict T :=
  fold_left
    (fun d '(name, param) => dict_set name (tensor_div param (float_of_len n)) d)
    avg_state_dict avg_state_dict.

(** What [_compute_global_average] stores for a non-empty collection. *)
Definition global_average (local_averages : list (dict T)) : dict T :=
  divide_params (length local_averages) (sum_params local_averages).

(** The arithmetic mean of the tensors [v :: vs]: their sum, taken left
    to right, divided by how many they are. *)
Definition tensor_sum (v : T) (vs : list T) : T := fold_left tensor_add vs v.

Definition tensor_mean (v : T) (vs : list T) : T :=
  tensor_div (tensor_sum v vs) (float_of_len (S (length vs))).

(** What one more local model does to the running sum kept under [k]. *)
Definition merge (o : option T) (sd : dict T) (k : string) : option T :=
  match dict_get k sd with
  | None => o
  | Some p => Some (match o with None => p | Some a => tensor_add a p end)
  end.

End Aggregator.

(** ** Messages of the service, as [comm_pb2] declares them *)

Module comm_pb2.
Record ID : Type := { id : string; num : nat }.
Record Size : Type := { size : nat }.
Record Model (bytes : Type) : Type := { buffer : bytes }.
Inductive Empty : Type := Empty_ : Empty.
Arguments buffer {bytes} _.
End comm_pb2.

(** ** The servicer *)

(** A value of [self.user_ids]. *)
Record UserInfo : Type := {
  user_num : nat;
  status : Status;
  last_active : float
}.

#[export] Instance Status_eq_dec : EqDecision Status.
Proof. solve_decision. Defined.

Definition set_status (v : Status) (u : UserInfo) : UserInfo :=
  {| user_num := user_num u; status := v; last_active := last_active u |}.

Definition set_last_active (v : float) (u : UserInfo) : UserInfo :=
  {| user_num := user_num u; status := status u; last_active := v |}.

(** [time.time() - user_info["last_active"] > 300] *)
Definition stale (now : float) (user_info : UserInfo) : bool :=
  PrimFloat.ltb 300 (PrimFloat.sub now (last_active user_info)).

(** The first loop of [GetSize]; [clock user_id] is what [time.time()]
    reads in the turn that visits [user_id]. *)
Definition sweep (clock : string -> float) (ids : gmap string UserInfo)
  : gmap string UserInfo :=
  map_imap (fun user_id user_info =>
              Some (if stale (clock user_id) user_info
                    then set_status STATUS_DEAD user_info
                    else user_info)) ids.

(** The list comprehension of [GetSize]. *)
Definition alive (item : string * UserInfo) : Prop :=
  status (snd item) = STATUS_ALIVE.

#[export] Instance alive_dec item : Decision (alive item).
Proof. unfold alive. apply _. Defined.

Definition count_alive (ids : gmap string UserInfo) : nat :=
  length (filter alive (map_to_list ids)).

(** The sessions that are alive and that a sweep reading [clock] leaves so. *)
Definition survives (clock : string -> float) (item : string * UserInfo) : Prop :=
  alive item /\ stale (clock (fst item)) (snd item) = false.

#[export] Instance survives_dec clock item : Decision (survives clock item).
Proof. unfold survives. apply _. Defined.

Section Servicer.
Context {T : Type} `{Tensor T}.
(** The codec of [grpc_utils], a collaborator outside this file. *)
Context {bytes : Type}.
Context (serialize_model : dict T -> bytes).
Context (deserialize_model : bytes -> dict T).

(** The attributes of [CommunicationServicer].  [num_clients] is first
    assigned in [SendMessage]; [model] stands for what
    [self.model.state_dict()] returns. *)
Record Servicer : Type := {
  local_averages : list (dict T);
  num_clients : option nat;
  target_clients : nat;
  state_dict : option (dict T);
  model : dict T;
  user_ids : gmap string UserInfo
}.

Definition set_local_averages (v : list (dict T)) (s : Servicer) : Servicer :=
  {| local_averages := v; num_clients := num_clients s;
     target_clients := target_clients s; state_dict := state_dict s;
     model := model s; user_ids := user_ids s |}.

Definition set_num_clients (v : option nat) (s : Servicer) : Servicer :=
  {| local_averages := local_averages s; num_clients := v;
     target_clients := target_clients s; state_dict := state_dict s;
     model := model s; user_ids := user_ids s |}.

Definition set_state_dict (v : option (dict T)) (s : Servicer) : Servicer :=
  {| local_averages := local_averages s; num_clients := num_clients s;
     target_clients := target_clients s; state_dict := v;
     model := model s; user_ids := user_ids s |}.

Definition set_user_ids (v : gmap string UserInfo) (s : Servicer) : Servicer :=
  {| local_averages := local_averages s; num_clients := num_clients s;
     target_clients := target_clients s; state_dict := state_dict s;
     model := model s; user_ids := v |}.

(** [__init__], for the model the server was built with. *)
Definition init (model0 : dict T) : Servicer :=
  {| local_averages := []; num_clients := None; target_clients := 2;
     state_dict := None; model := model0; user_ids := ∅ |}.

(** *** Identity registry *)

(** [_generate_ID].  [draws] are the successive results of
    [np.random.randint(0, 2**31 - 1)]; the loop consumes them until one
    gives an id that is not a key of [user_ids], and has no result when
    they run out first. *)
Fixpoint _generate_ID (draws : list Z) (s : Servicer) : option (string * list Z) :=
  match draws with
  | [] => None
  | int_id :: rest =>
      let random_id := hex (hash int_id) in
      match user_ids s !! random_id with
      | Some _ => _generate_ID rest s
      | None => Some (random_id, rest)
      end
  end.

Definition GetID (draws : list Z) (now : float) (s : Servicer)
  : option (comm_pb2.ID * Servicer * list Z) :=
  match _generate_ID draws s with
  | None => None
  | Some (random_id, rest) =>
      let user_num := size (user_ids s) + 1 in
      let user_info :=
        {| user_num := user_num; status := STATUS_ALIVE; last_active := now |} in
      Some ({| comm_pb2.id := random_id; comm_pb2.num := user_num |},
            set_user_ids (<[random_id := user_info]> (user_ids s)) s,
            rest)
  end.

(** [GetSize]: the sweep, then the count of the sessions that are alive.
    The count reads [user_ids] after the lock is released; here it reads
    what the sweep left. *)
Definition GetSize (clock : string -> float) (s : Servicer)
  : comm_pb2.Size * Servicer :=
  let s' := set_user_ids (sweep clock (user_ids s)) s in
  ({| comm_pb2.size := count_alive (user_ids s') |}, s').

Definition SendBye (user_id : string) (s : Servicer) : exn + Servicer :=
  match user_ids s !! user_id with
  | None => inl (KeyError user_id)
  | Some _ => inr (set_user_ids (delete user_id (user_ids s)) s)
  end.

(** The session of [user_id] is there, dead, with ordinal [n]. *)
Definition dead_at (user_id : string) (n : nat) (s : Servicer) : Prop :=
  exists user_info,
    user_ids s !! user_id = Some user_info /\
    status user_info = STATUS_DEAD /\
    user_num user_info = n.

(** *** Snapshot store *)

(** [GetModel]; [not self.state_dict] holds of [None] and of an empty
    dictionary. *)
Definition GetModel (s : Servicer) : comm_pb2.Model bytes :=
  match state_dict s with
  | None => {| comm_pb2.buffer := serialize_model (model s) |}
  | Some [] => {| comm_pb2.buffer := serialize_model (model s) |}
  | Some (item :: items) =>
      {| comm_pb2.buffer := serialize_model (item :: items) |}
  end.

(** *** The pieces of [SendMessage] *)

(** Line 112: [self.user_ids[user_id]["last_active"] = time.time()]. *)
Definition heartbeat (user_id : string) (now : float) (s : Servicer)
  : exn + Servicer :=
  match user_ids s !! user_id with
  | None => inl (KeyError user_id)
  | Some user_info =>
      inr (set_user_ids
             (<[user_id := set_last_active now user_info]> (user_ids s)) s)
  end.

(** Lines 116-123, the first critical section: the new servicer, and
    whether [notify_all] was called. *)
Definition append_update (buffer : bytes) (s : Servicer) : Servicer * bool :=
  let la := local_averages s ++ [deserialize_model buffer] in
  let n := length la in
  (set_num_clients (Some n) (set_local_averages la s),
   target_clients s <=? n).

(** Line 126, the loop test [self.num_clients < self.target_clients]. *)
Definition below_target (s : Servicer) : exn + bool :=
  match num_clients s with
  | None => inl (AttributeError "num_clients")
  | Some n => inr (n <? target_clients s)
  end.

Definition _compute_global_average (s : Servicer) : Servicer :=
  match local_averages s with
  | [] => s
  | _ :: _ => set_state_dict (Some (global_average (local_averages s))) s
  end.

(** Lines 132-134, the last critical section. *)
Definition aggregate_and_reset (s : Servicer) : Servicer :=
  set_local_averages [] (_compute_global_average s).

(** Lines 111-123 in one piece: what a call does before the barrier. *)
Definition submit_entry (user_id : string) (now : float) (buffer : bytes)
                        (s : Servicer) : exn + (Servicer * bool) :=
  match heartbeat user_id now s with
  | inl e => inl e
  | inr s' => inr (append_update buffer s')
  end.

(** *** Calls of the service, one after another

    The handlers run on a thread pool; whatever the interleaving, the
    servicer changes by the pieces below, each of which runs in one go. *)

Inductive action : Type :=
  | CallGetID (draws : list Z) (now : float)
  | CallGetSize (clock : string -> float)
  | CallGetModel
  | CallSendBye (user_id : string)
  | StepHeartbeat (user_id : string) (now : float)
  | StepAppend (buffer : bytes)
  | StepAggregate.

Inductive reply : Type :=
  | ReplyID (r : comm_pb2.ID)
  | ReplySize (r : comm_pb2.Size)
  | ReplyModel (r : comm_pb2.Model bytes)
  | ReplyEmpty
  | Raise (e : exn)
  | Continue.

(** [None] when [GetID] never leaves its loop. *)
Definition perform (a : action) (s : Servicer) : option (reply * Servicer) :=
  match a with
  | CallGetID draws now =>
      match GetID draws now s with
      | None => None
      | Some (r, s', _) => Some (ReplyID r, s')
      end
  | CallGetSize clock => let '(r, s') := GetSize clock s in Some (ReplySize r, s')
  | CallGetModel => Some (ReplyModel (GetModel s), s)
  | CallSendBye user_id =>
      match SendBye user_id s with
      | inl e => Some (Raise e, s)
      | inr s' => Some (ReplyEmpty, s')
      end
  | StepHeartbeat user_id now =>
      match heartbeat user_id now s with
      | inl e => Some (Raise e, s)
      | inr s' => Some (Continue, s')
      end
  | StepAppend buffer => Some (Continue, fst (append_update buffer s))
  | StepAggregate => Some (Continue, aggregate_and_reset s)
  end.

Fixpoint run (actions : list action) (s : Servicer)
  : option (list reply * Servicer) :=
  match actions with
  | [] => Some ([], s)
  | a :: rest =>
      match perform a s with
      | None => None
      | Some (r, s') =>
          match run rest s' with
          | None => None
          | Some (rs, s'') => Some (r :: rs, s'')
          end
      end
  end.

Definition is_SendBye_of (user_id : string) (a : action) : Prop :=
  match a with
  | CallSendBye user_id' => user_id' = user_id
  | _ => False
  end.

Definition is_SendBye (a : action) : Prop :=
  match a with
  | CallSendBye _ => True
  | _ => False
  end.

(** How many calls of [GetID] a sequence holds. *)
Fixpoint registrations (actions : list action) : nat :=
  match actions with
  | [] => 0
  | CallGetID _ _ :: rest => S (registrations rest)
  | _ :: rest => registrations rest
  end.

(** The ids and ordinals [GetID] handed out, oldest first. *)
Fixpoint issued (replies : list reply) : list comm_pb2.ID :=
  match replies with
  | [] => []
  | ReplyID r :: rest => r :: issued rest
  | _ :: rest => issued rest
  end.

(** The sizes [GetSize] reported, oldest first. *)
Fixpoint reported (replies : list reply) : list nat :=
  match replies with
  | [] => []
  | ReplySize r :: rest => comm_pb2.size r :: reported rest
  | _ :: rest => reported rest
  end.

(** *** Concurrent calls of [SendMessage]

    Where a handler thread stands in the body of [SendMessage]. *)
Inductive pc : Type :=
  | AtHeartbeat      (* before line 112 *)
  | AtAppend         (* before the critical section of lines 116-123 *)
  | AtBarrier        (* before the loop of lines 125-130 *)
  | Waiting          (* inside [self.condition.wait()] *)
  | Notified         (* woken, about to test the loop condition again *)
  | AtAggregate      (* before the critical section of lines 132-134 *)
  | AtReturn         (* before lines 137-143 *)
  | Returned
  | Raised (e : exn).

Record Call : Type := {
  request_id : string;
  request_buffer : bytes;
  at_pc : pc
}.

Definition move (c : Call) (p : pc) : Call :=
  {| request_id := request_id c; request_buffer := request_buffer c; at_pc := p |}.

Record World : Type := {
  servicer : Servicer;
  calls : list Call
}.

(** What a thread does in one step; [EvAppend] tells whether the step
    called [notify_all], [EvAggregate] whether it stored a snapshot. *)
Inductive event : Type :=
  | EvHeartbeat (i : nat)
  | EvAppend (i : nat) (notified : bool)
  | EvWait (i : nat)
  | EvPass (i : nat)
  | EvAggregate (i : nat) (published : bool)
  | EvReturn (i : nat)
  | EvRaise (i : nat) (e : exn).

(** [self.condition.notify_all()] *)
Definition wake (c : Call) : Call :=
  match at_pc c with
  | Waiting => move c Notified
  | _ => c
  end.

Definition notify_all (cs : list Call) : list Call := map wake cs.

Definition holds_models (s : Servicer) : bool :=
  match local_averages s with
  | [] => false
  | _ :: _ => true
  end.

(** Thread [i] runs up to its next release of the lock; [clock i] is what
    its [time.time()] reads.  A thread inside [wait()] that nobody
    notified cannot run, and neither can one that is gone.  The codec and
    the tensor operations are total here: buffers decode, and the maps hold
    tensors of one shape under a name, so that lines 117 and 166 raise
    nothing. *)
Definition step (clock : nat -> float) (i : nat) (w : World)
  : option (event * World) :=
  match calls w !! i with
  | None => None
  | Some c =>
      let goes p := <[i := move c p]> (calls w) in
      match at_pc c with
      | AtHeartbeat =>
          match heartbeat (request_id c) (clock i) (servicer w) with
          | inl e =>
              Some (EvRaise i e,
                    {| servicer := servicer w; calls := goes (Raised e) |})
          | inr s' =>
              Some (EvHeartbeat i, {| servicer := s'; calls := goes AtAppend |})
          end
      | AtAppend =>
          let '(s', notified) := append_update (request_buffer c) (servicer w) in
          Some (EvAppend i notified,
                {| servicer := s';
                   calls := if notified then notify_all (goes AtBarrier)
                            else goes AtBarrier |})
      | AtBarrier | Notified =>
          match below_target (servicer w) with
          | inl e =>
              Some (EvRaise i e,
                    {| servicer := servicer w; calls := goes (Raised e) |})
          | inr true =>
              Some (EvWait i, {| servicer := servicer w; calls := goes Waiting |})
          | inr false =>
              Some (EvPass i,
                    {| servicer := servicer w; calls := goes AtAggregate |})
          end
      | Waiting => None
      | AtAggregate =>
          Some (EvAggregate i (holds_models (servicer w)),
                {| servicer := aggregate_and_reset (servicer w);
                   calls := goes AtReturn |})
      | AtReturn =>
          Some (EvReturn i, {| servicer := servicer w; calls := goes Returned |})
      | Returned | Raised _ => None
      end
  end.

(** The worlds an execution reaches from [w0], with what happened. *)
Inductive reach (clock : nat -> float) (w0 : World) : list event -> World -> Prop :=
  | reach_start : reach clock w0 [] w0
  | reach_step tr w i e w' :
      reach clock w0 tr w ->
      step clock i w = Some (e, w') ->
      reach clock w0 (tr ++ [e]) w'.

(** A schedule, run as far as it goes. *)
Fixpoint execute (clock : nat -> float) (schedule : list nat) (w : World)
  : list event * World :=
  match schedule with
  | [] => ([], w)
  | i :: rest =>
      match step clock i w with
      | None => ([], w)
      | Some (e, w') =>
          let '(tr, w'') := execute clock rest w' in (e :: tr, w'')
      end
  end.

(** [target] calls arrive at a servicer that collects nothing yet. *)
Definition round_start (s : Servicer) (requests : list (string * bytes)) : World :=
  {| servicer := s;
     calls := map (fun r => {| request_id := fst r; request_buffer := snd r;
                               at_pc := AtHeartbeat |}) requests |}.

(** The servicer is between rounds, configured for as many clients as
    there are requests, and every request comes from a registered id. *)
Definition round_ready (s : Servicer) (requests : list (string * bytes)) : Prop :=
  local_averages s = [] /\
  target_clients s = length requests /\
  Forall (fun r => is_Some (user_ids s !! fst r)) requests.

Definition all_returned (w : World) : Prop :=
  Forall (fun c => at_pc c = Returned) (calls w).

Definition appended (c : Call) : bool :=
  match at_pc c with
  | AtHeartbeat | AtAppend | Raised _ => false
  | _ => true
  end.

Definition aggregated (c : Call) : bool :=
  match at_pc c with
  | AtReturn | Returned => true
  | _ => false
  end.

Definition returned (c : Call) : bool :=
  match at_pc c with
  | Returned => true
  | _ => false
  end.

Definition request_of (c : Call) : string * bytes :=
  (request_id c, request_buffer c).

Definition total (f : Call -> nat) (cs : list Call) : nat :=
  list_sum (map f cs).

Definition count (P : Call -> bool) (cs : list Call) : nat :=
  total (fun c => if P c then 1 else 0) cs.

(** The threads that appended, in the order in which they did. *)
Fixpoint appenders (tr : list event) : list nat :=
  match tr with
  | [] => []
  | EvAppend i _ :: rest => i :: appenders rest
  | _ :: rest => appenders rest
  end.

(** The models a round collected, in the order of arrival. *)
Definition collected (requests : list (string * bytes)) (tr : list event)
  : list (dict T) :=
  omap (fun i => (fun r => deserialize_model (snd r)) <$> requests !! i)
       (appenders tr).

Definition is_notify (e : event) : bool :=
  match e with
  | EvAppend _ true => true
  | _ => false
  end.

Definition is_aggregate (e : event) : bool :=
  match e with
  | EvAggregate _ _ => true
  | _ => false
  end.

Definition is_publish (e : event) : bool :=
  match e with
  | EvAggregate _ true => true
  | _ => false
  end.

Definition is_return (e : event) : bool :=
  match e with
  | EvReturn _ => true
  | _ => false
  end.

Definition occurrences (P : event -> bool) (tr : list event) : nat :=
  length (List.filter P tr).

(** How far a thread is from its return, in steps at most. *)
Definition distance (p : pc) : nat :=
  match p with
  | AtHeartbeat => 7
  | AtAppend => 6
  | AtBarrier => 5
  | Waiting => 4
  | Notified => 3
  | AtAggregate => 2
  | AtReturn => 1
  | Returned | Raised _ => 0
  end.

Definition remaining (w : World) : nat :=
  total (fun c => distance (at_pc c)) (calls w).

(** Where a thread may stand when [k] of the [n] calls of a round have
    appended their model. *)
Definition pc_ok (k n : nat) (p : pc) : Prop :=
  match p with
  | AtHeartbeat | AtAppend | AtBarrier => True
  | Waiting => k < n
  | Notified | AtAggregate | AtReturn | Returned => k = n
  | Raised _ => False
  end.

(** What holds of every world that a round started from [s0] with
    [requests] reaches, [tr] being what happened so far. *)
Record round_inv (s0 : Servicer) (requests : list (string * bytes))
                 (tr : list event) (w : World) : Prop := {
  inv_requests : map request_of (calls w) = requests;
  inv_target : target_clients (servicer w) = length requests;
  inv_registered :
    Forall (fun c => is_Some (user_ids (servicer w) !! request_id c)) (calls w);
  inv_appenders : length (appenders tr) = count appended (calls w);
  inv_appenders_who :
    forall i, i ∈ appenders tr <->
              exists c, calls w !! i = Some c /\ appended c = true;
  inv_appenders_once : NoDup (appenders tr);
  inv_num_clients :
    0 < count appended (calls w) ->
    num_clients (servicer w) = Some (count appended (calls w));
  inv_pc :
    Forall (fun c => pc_ok (count appended (calls w)) (length requests) (at_pc c))
           (calls w);
  inv_collecting :
    count aggregated (calls w) = 0 ->
    local_averages (servicer w) = collected requests tr /\
    state_dict (servicer w) = state_dict s0;
  inv_published :
    0 < count aggregated (calls w) ->
    local_averages (servicer w) = [] /\
    state_dict (servicer w) = Some (global_average (collected requests tr));
  inv_aggregates : occurrences is_aggregate tr = count aggregated (calls w);
  inv_publishes :
    occurrences is_publish tr = if count aggregated (calls w) =? 0 then 0 else 1;
  inv_returns : occurrences is_return tr = count returned (calls w);
  inv_notifies :
    occurrences is_notify tr =
    if (count appended (calls w) =? length requests) && (0 <? length requests)
    then 1 else 0;
  inv_progress : length tr + remaining w <= 7 * length requests
}.

End Servicer.

(** ** Sample data

    Scalar tensors, a codec that is the identity, and a server whose
    model has one convolution weight and one batch-norm statistic. *)

Definition sample_model : dict float :=
  [("conv1.weight", 0.5%float); ("bn1.running_mean", 0.25%float)].

Definition sample_server : @Servicer float := init sample_model.

(** Two maps collected by a servicer configured for five. *)
Definition two_of_five : @Servicer float :=
  {| local_averages := [[("a", 2%float)]; [("a", 4%float)]];
     num_clients := Some 2; target_clients := 5; state_dict := None;
     model := sample_model; user_ids := ∅ |}.

(** Two clients register, at times 100 and 350; the second one's first
    draw collides with the id of the first. *)
Definition two_users : @Servicer float :=
  match GetID [5%Z] 100%float sample_server with
  | Some (_, s1, _) =>
      match GetID [5%Z; 7%Z] 350%float s1 with
      | Some (_, s2, _) => s2
      | None => s1
      end
  | None => sample_server
  end.

(** A clock that reads 450 throughout a sweep. *)
Definition at_450 (user_id : string) : float := 450%float.

(** Calls a server may see one after another: two registrations with a
    sweep, a heartbeat and a fetch around them. *)
Definition sample_calls : list (@action (dict float)) :=
  [CallGetID [5%Z] 100%float; CallGetSize at_450;
   CallGetID [5%Z; 7%Z] 350%float; StepHeartbeat "0x5" 400%float;
   CallGetModel].

(** A servicer whose round collected nothing but batch-norm statistics. *)
Definition only_bn : @Servicer float :=
  {| local_averages := [[("bn1.weight", 1%float)]; [("bn1.weight", 3%float)]];
     num_clients := Some 2; target_clients := 2; state_dict := None;
     model := sample_model; user_ids := ∅ |}.

(** The two clients after a sweep at 450, which marks the first dead,
    and calls that follow it. *)
Definition swept_users : @Servicer float := snd (GetSize at_450 two_users).

Definition later_calls : list (@action (dict float)) :=
  [StepHeartbeat "0x5" 460%float; CallGetSize (fun _ => 470%float);
   CallGetID [9%Z] 480%float; StepAppend [("a", 2%float)];
   CallSendBye "0x7"; CallGetModel].

(** A world in which the second of two calls names an id nobody holds. *)
Definition stranger_world : @World float (dict float) :=
  round_start two_users [("0x5", [("a", 2%float)]); ("0xdead", [("a", 4%float)])].

Definition at_500 (i : nat) : float := 500%float.

(** The first client has entered a round with one map. *)
Definition one_collected : @Servicer float :=
  match submit_entry (fun d => d) "0x5" 400%float [("a", 2%float)] two_users with
  | inr (s, _) => s
  | inl _ => two_users
  end.

(** A round of the two registered clients, and a schedule in which the
    first one waits, the second one completes the count, and the first one
    is the first to go on after the [notify_all]. *)
Definition ready_requests : list (string * dict float) :=
  [("0x5", [("a", 2%float)]); ("0x7", [("a", 4%float)])].

Definition ready_round : @World float (dict float) :=
  round_start two_users ready_requests.

Definition waiter_first : list nat := [0; 0; 0; 1; 1; 1; 0; 0; 0; 1; 1].

Definition waiter_first_trace : list event :=
  [EvHeartbeat 0; EvAppend 0 false; EvWait 0;
   EvHeartbeat 1; EvAppend 1 true; EvPass 1;
   EvPass 0; EvAggregate 0 true; EvReturn 0;
   EvAggregate 1 false; EvReturn 1].

(** ** Further sample data *)

(** The integers [np.random.randint(0, 2**31 - 1)] can return. *)
Definition in_draw_range (d : Z) : Prop := (0 <= d < 2 ^ 31 - 1)%Z.

(** The names [_compute_global_average] keeps. *)
Definition kept (name : string) : bool := negb (contains "bn" name).

(** Two maps with different key sets. *)
Definition mismatched : @Servicer float :=
  {| local_averages := [[("a", 2%float)]; [("b", 4%float)]];
     num_clients := Some 2; target_clients := 2; state_dict := None;
     model := sample_model; user_ids := ∅ |}.

(** What one more item does to the list of keys of the running sum. *)
Definition add_key (ks : list string) (name : string) : list string :=
  if contains "bn" name then ks
  else if decide (name ∈ ks) then ks else ks ++ [name].

(** What a call may have raised, and what it has assigned, in a world
    reached from a servicer [s0]: a call past its append has left
    [num_clients] assigned, and a call that raised has raised the
    [KeyError] of its own id, which [s0] does not hold. *)
Definition raised_ok {T bytes : Type} (s0 s : @Servicer T) (c : @Call bytes) : Prop :=
  (appended c = true -> is_Some (num_clients s)) /\
  (forall x, at_pc c = Raised x ->
             x = KeyError (request_id c) /\ user_ids s0 !! request_id c = None).

(** A client registers, says goodbye, and another one registers with the
    same draw. *)
Definition reissue_calls : list (@action (dict float)) :=
  [CallGetID [9%Z] 100%float; CallSendBye "0x9"; CallGetID [9%Z] 200%float].

(** * Properties *)

(** ** Dictionaries *)

Section DictFacts.
Context {V : Type}.
Implicit Types (d : dict V) (k : string) (v : V).

Lemma dict_get_set k k' v d :
  dict_get k (dict_set k' v d) = if String.eqb k k' then Some v else dict_get k d.
Proof.
  induction d as [|[k0 v0] d IH]; simpl.
  - destruct (String.eqb k k'); reflexivity.
  - destruct (String.eqb k' k0) eqn:E0; simpl.
    + apply String.eqb_eq in E0; subst k0.
      destruct (String.eqb k k'); reflexivity.
    + rewrite IH. destruct (String.eqb k k0) eqn:E1; [|reflexivity].
      apply String.eqb_eq in E1; subst k0.
      rewrite String.eqb_sym, E0. reflexivity.
Qed.

Lemma dict_get_set_eq k v d : dict_get k (dict_set k v d) = Some v.
Proof. rewrite dict_get_set, String.eqb_refl. reflexivity. Qed.

Lemma dict_get_set_ne k k' v d :
  k <> k' -> dict_get k (dict_set k' v d) = dict_get k d.
Proof.
  intros Hne. rewrite dict_get_set.
  destruct (String.eqb k k') eqn:E; [|reflexivity].
  apply String.eqb_eq in E. contradiction.
Qed.

Lemma dict_get_None k d : dict_get k d = None <-> k ∉ keys d.
Proof.
  induction d as [|[k0 v0] d IH]; simpl.
  - split; [intros _; apply not_elem_of_nil | reflexivity].
  - rewrite not_elem_of_cons. destruct (String.eqb k k0) eqn:E.
    + apply String.eqb_eq in E. split; [discriminate | tauto].
    + apply String.eqb_neq in E. rewrite IH. tauto.
Qed.

Lemma dict_get_Some_keys k v d : dict_get k d = Some v -> k ∈ keys d.
Proof.
  intros Hget. destruct (decide (k ∈ keys d)) as [|Hn]; [assumption|].
  apply dict_get_None in Hn. congruence.
Qed.

Lemma keys_dict_set x k v d : x ∈ keys (dict_set k v d) <-> x = k \/ x ∈ keys d.
Proof.
  induction d as [|[k0 v0] d IH]; simpl.
  - rewrite list_elem_of_singleton. split; [tauto|].
    intros [?|Hin]; [assumption | inversion Hin].
  - destruct (String.eqb k k0) eqn:E; simpl; rewrite !elem_of_cons.
    + apply String.eqb_eq in E; subst k0. tauto.
    + rewrite IH. tauto.
Qed.

Lemma wf_dict_set k v d : wf_dict d -> wf_dict (dict_set k v d).
Proof.
  unfold wf_dict. induction d as [|[k0 v0] d IH]; simpl; intros Hwf.
  - apply NoDup_singleton.
  - apply NoDup_cons in Hwf as [Hnotin Hwf].
    destruct (String.eqb k k0) eqn:E; simpl; apply NoDup_cons.
    + split; assumption.
    + apply String.eqb_neq in E. split; [|apply IH; assumption].
      fold (keys (dict_set k v d)). rewrite keys_dict_set.
      intros [->|Hin]; [congruence | contradiction].
Qed.

End DictFacts.

(** ** The aggregator *)

Section AggregatorFacts.
Context {T : Type} `{Tensor T}.
Implicit Types (avg sd : dict T) (las : list (dict T)) (k : string).

Lemma accumulate_get k avg name (param : T) :
  dict_get k (accumulate avg (name, param)) =
  if contains "bn" name then dict_get k avg
  else if String.eqb k name
       then Some (match dict_get name avg with
                  | None => param
                  | Some a => tensor_add a param
                  end)
       else dict_get k avg.
Proof.
  unfold accumulate. destruct (contains "bn" name); [reflexivity|].
  destruct (dict_get name avg); apply dict_get_set.
Qed.

Lemma wf_accumulate avg item : wf_dict avg -> wf_dict (accumulate avg item).
Proof.
  destruct item as [name param]. unfold accumulate. intros Hwf.
  destruct (contains "bn" name); [assumption|].
  destruct (dict_get name avg); apply wf_dict_set; assumption.
Qed.

Lemma wf_fold_accumulate sd avg :
  wf_dict avg -> wf_dict (fold_left accumulate sd avg).
Proof.
  revert avg. induction sd as [|item sd IH]; simpl; intros avg Hwf.
  - assumption.
  - apply IH, wf_accumulate, Hwf.
Qed.

Lemma wf_sum_params las : wf_dict (sum_params las).
Proof.
  unfold sum_params.
  assert (Hnil : wf_dict (@nil (string * T))) by apply NoDup_nil_2.
  revert Hnil. generalize (@nil (string * T)).
  induction las as [|sd las IH]; simpl; intros avg Hwf.
  - exact Hwf.
  - apply IH. apply wf_fold_accumulate. exact Hwf.
Qed.

Lemma fold_accumulate_bn k sd avg :
  contains "bn" k = true ->
  dict_get k (fold_left accumulate sd avg) = dict_get k avg.
Proof.
  intros Hbn. revert avg.
  induction sd as [|[name param] sd IH]; cbn [fold_left]; intros avg.
  - reflexivity.
  - rewrite IH, accumulate_get.
    destruct (contains "bn" name) eqn:E; [reflexivity|].
    destruct (String.eqb k name) eqn:Ek; [|reflexivity].
    apply String.eqb_eq in Ek. congruence.
Qed.

Lemma fold_accumulate_get k sd avg :
  wf_dict sd -> contains "bn" k = false ->
  dict_get k (fold_left accumulate sd avg) = merge (dict_get k avg) sd k.
Proof.
  intros Hwf Hbn. revert avg Hwf.
  induction sd as [|[name param] sd IH]; cbn [fold_left]; intros avg Hwf.
  - reflexivity.
  - unfold wf_dict, keys in Hwf. simpl in Hwf.
    apply NoDup_cons in Hwf as [Hnotin Hwf].
    rewrite (IH _ Hwf), accumulate_get. unfold merge at 2. cbn [dict_get].
    destruct (String.eqb k name) eqn:Ek.
    + apply String.eqb_eq in Ek; subst name. rewrite Hbn.
      unfold merge. apply dict_get_None in Hnotin. rewrite Hnotin. reflexivity.
    + destruct (contains "bn" name); reflexivity.
Qed.

Lemma merge_all_Some k las (a : T) :
  fold_left (fun o sd => merge o sd k) las (Some a)
  = Some (tensor_sum a (omap (dict_get k) las)).
Proof.
  revert a. induction las as [|sd las IH]; simpl; intros a.
  - reflexivity.
  - unfold merge at 2. destruct (dict_get k sd); simpl; apply IH.
Qed.

Lemma merge_all_None k las :
  fold_left (fun o sd => merge o sd k) las None
  = match omap (dict_get k) las with
    | [] => None
    | v :: vs => Some (tensor_sum v vs)
    end.
Proof.
  induction las as [|sd las IH]; simpl.
  - reflexivity.
  - unfold merge at 2. destruct (dict_get k sd); simpl.
    + apply merge_all_Some.
    + apply IH.
Qed.

Lemma sum_params_get k las :
  Forall wf_dict las ->
  dict_get k (sum_params las) =
  if contains "bn" k then None
  else match omap (dict_get k) las with
       | [] => None
       | v :: vs => Some (tensor_sum v vs)
       end.
Proof.
  intros Hwf. unfold sum_params.
  assert (Hgen : forall avg,
    dict_get k (fold_left (fun avg sd => fold_left accumulate sd avg) las avg)
    = if contains "bn" k then dict_get k avg
      else fold_left (fun o sd => merge o sd k) las (dict_get k avg)).
  { induction Hwf as [|sd las Hsd _ IH]; simpl; intros avg.
    - destruct (contains "bn" k); reflexivity.
    - rewrite IH. destruct (contains "bn" k) eqn:Hbn.
      + apply fold_accumulate_bn, Hbn.
      + rewrite (fold_accumulate_get _ _ _ Hsd Hbn). reflexivity. }
  rewrite Hgen. simpl. destruct (contains "bn" k); [reflexivity|].
  apply merge_all_None.
Qed.

Lemma divide_params_get n k avg :
  wf_dict avg ->
  dict_get k (divide_params n avg)
  = (fun p => tensor_div p (float_of_len n)) <$> dict_get k avg.
Proof.
  intros Hwf. unfold divide_params.
  assert (Hgen : forall (l d : dict T), wf_dict l ->
    dict_get k (fold_left
      (fun d '(name, param) => dict_set name (tensor_div param (float_of_len n)) d)
      l d)
    = match dict_get k l with
      | Some p => Some (tensor_div p (float_of_len n))
      | None => dict_get k d
      end).
  { induction l as [|[name param] l IH]; simpl; intros d Hl.
    - reflexivity.
    - unfold wf_dict, keys in Hl. simpl in Hl.
      apply NoDup_cons in Hl as [Hnotin Hl]. rewrite (IH _ Hl).
      destruct (String.eqb k name) eqn:Ek.
      + apply String.eqb_eq in Ek; subst name.
        apply dict_get_None in Hnotin. rewrite Hnotin. apply dict_get_set_eq.
      + apply String.eqb_neq in Ek. rewrite (dict_get_set_ne _ _ _ _ Ek).
        reflexivity. }
  rewrite (Hgen _ _ Hwf). destruct (dict_get k avg); reflexivity.
Qed.

Lemma global_average_get k las :
  Forall wf_dict las ->
  dict_get k (global_average las) =
  if contains "bn" k then None
  else match omap (dict_get k) las with
       | [] => None
       | v :: vs => Some (tensor_div (tensor_sum v vs) (float_of_len (length las)))
       end.
Proof.
  intros Hwf. unfold global_average.
  rewrite divide_params_get by apply wf_sum_params.
  rewrite (sum_params_get _ _ Hwf).
  destruct (contains "bn" k); [reflexivity|].
  destruct (omap (dict_get k) las); reflexivity.
Qed.

(** Maps with the key set of [m] all hold a value under a key of [m], and
    none under any other. *)
Lemma same_keys_values k (m : dict T) (ms : list (dict T)) :
  Forall (fun m' => forall x, x ∈ keys m' <-> x ∈ keys m) ms ->
  (k ∈ keys m -> length (omap (dict_get k) ms) = length ms) /\
  (k ∉ keys m -> omap (dict_get k) ms = []).
Proof.
  induction 1 as [|m' ms Hm' _ [IH1 IH2]]; simpl.
  - split; reflexivity.
  - split; intros Hk.
    + destruct (dict_get k m') eqn:E; simpl.
      * f_equal. apply IH1, Hk.
      * apply dict_get_None in E. exfalso. apply E, Hm', Hk.
    + destruct (dict_get k m') eqn:E; simpl.
      * apply dict_get_Some_keys in E. exfalso. apply Hk, Hm', E.
      * apply IH2, Hk.
Qed.

End AggregatorFacts.

(** ** [_compute_global_average] *)

Section ComputeGlobalAverage.
Context {T : Type} `{Tensor T}.
Implicit Types (s : @Servicer T).

Lemma compute_global_average_stores s (m : dict T) (ms : list (dict T)) :
  local_averages s = m :: ms ->
  state_dict (_compute_global_average s) = Some (global_average (m :: ms)).
Proof.
  intros Hla. unfold _compute_global_average. rewrite Hla. reflexivity.
Qed.

Lemma compute_global_average_mean s (m : dict T) (ms : list (dict T)) :
  local_averages s = m :: ms ->
  Forall wf_dict (m :: ms) ->
  Forall (fun m' => forall x, x ∈ keys m' <-> x ∈ keys m) ms ->
  exists avg,
    state_dict (_compute_global_average s) = Some avg /\
    forall name,
      let vs := omap (dict_get name) ms in
      (name ∈ keys m -> S (length vs) = length (local_averages s)) /\
      dict_get name avg =
        if contains "bn" name then None
        else match dict_get name m with
             | None => None
             | Some v => Some (tensor_mean v vs)
             end.
Proof.
  intros Hla Hwf Hsame. exists (global_average (m :: ms)).
  split; [apply compute_global_average_stores, Hla|].
  intros name vs. destruct (same_keys_values name m ms Hsame) as [Hin Hout].
  split.
  - intros Hk. rewrite Hla. simpl. f_equal. apply Hin, Hk.
  - rewrite (global_average_get _ _ Hwf).
    destruct (contains "bn" name); [reflexivity|].
    cbn [omap list_omap]. fold (omap (dict_get name) ms). fold vs.
    destruct (dict_get name m) as [v|] eqn:Em.
    + apply dict_get_Some_keys in Em. unfold tensor_mean. subst vs.
      rewrite (Hin Em). reflexivity.
    + apply dict_get_None in Em. subst vs. rewrite (Hout Em). reflexivity.
Qed.

End ComputeGlobalAverage.

(** For dense tensors the mean is taken element by element. *)
Lemma dense_sum_lookup (i : nat) (vs : list (list float)) :
  forall (v : list float) (x : float) (xs : list float),
    v !! i = Some x ->
    Forall2 (fun t y => t !! i = Some y) vs xs ->
    tensor_sum v vs !! i = Some (tensor_sum x xs).
Proof.
  intros v x xs Hv Hvs. revert v x Hv.
  induction Hvs as [|t y vs xs Ht _ IH]; intros v x Hv.
  - exact Hv.
  - unfold tensor_sum. cbn [fold_left]. apply IH.
    cbn [tensor_add dense_tensor scalar_tensor].
    rewrite lookup_zip_with, Hv. cbn [mbind option_bind]. rewrite Ht. reflexivity.
Qed.

Lemma dense_mean_lookup (i : nat) (v : list float) (vs : list (list float))
      (x : float) (xs : list float) :
  v !! i = Some x ->
  Forall2 (fun t y => t !! i = Some y) vs xs ->
  tensor_mean v vs !! i = Some (tensor_mean x xs).
Proof.
  intros Hv Hvs. unfold tensor_mean at 1. cbn [tensor_div dense_tensor].
  change (map ?f ?l) with (f <$> l). rewrite list_lookup_fmap.
  rewrite (dense_sum_lookup i vs v x xs Hv Hvs).
  rewrite (Forall2_length _ _ _ Hvs). reflexivity.
Qed.

(** C2: for a non-empty collection of well-formed parameter maps with one
    key set, [_compute_global_average] stores a map that has no entry for
    a name containing ["bn"] and, under every other name of the key set,
    the mean of that name's tensors over all the maps: their sum divided by
    the number of maps collected, whatever [target_clients] is.  On dense
    tensors that mean is the mean of the elements at each position.  A
    servicer configured for five clients that collected [{a: 2.0}] and
    [{a: 4.0}] stores [{a: 3.0}]. *)
Theorem compute_global_average_is_mean :
  (forall (T : Type) (H : Tensor T) (s : @Servicer T) (m : dict T) (ms : list (dict T)),
      local_averages s = m :: ms ->
      Forall wf_dict (m :: ms) ->
      Forall (fun m' => forall x, x ∈ keys m' <-> x ∈ keys m) ms ->
      exists avg,
        state_dict (_compute_global_average s) = Some avg /\
        forall name,
          let vs := omap (dict_get name) ms in
          (name ∈ keys m -> S (length vs) = length (local_averages s)) /\
          dict_get name avg =
            if contains "bn" name then None
            else match dict_get name m with
                 | None => None
                 | Some v => Some (tensor_mean v vs)
                 end) /\
  (forall (i : nat) (v : list float) (vs : list (list float))
          (x : float) (xs : list float),
      v !! i = Some x ->
      Forall2 (fun t y => t !! i = Some y) vs xs ->
      tensor_mean v vs !! i = Some (tensor_mean x xs)) /\
  state_dict (_compute_global_average two_of_five) = Some [("a", 3%float)].
Proof.
  split; [|split].
  - intros T H. apply compute_global_average_mean.
  - apply dense_mean_lookup.
  - vm_compute. reflexivity.
Qed.

Lemma compute_global_average_is_mean_witness :
  exists avg,
    state_dict (_compute_global_average two_of_five) = Some avg /\
    dict_get "a" avg = Some 3%float /\
    dict_get "bn" avg = None.
Proof.
  destruct (proj1 compute_global_average_is_mean float _ two_of_five
              [("a", 2%float)] [[("a", 4%float)]] eq_refl)
    as [avg [Hsd Hget]].
  - constructor; [exact (NoDup_singleton "a")|].
    constructor; [exact (NoDup_singleton "a") | constructor].
  - constructor; [|constructor]. intros x. reflexivity.
  - exists avg. split; [exact Hsd|]. split.
    + destruct (Hget "a") as [_ ->]. vm_compute. reflexivity.
    + destruct (Hget "bn") as [_ ->]. reflexivity.
Defined.

(** C10: called on an empty collection, [_compute_global_average] returns
    at once: the servicer, and with it the published snapshot, is what it
    was, also after the assignment that follows the call in [SendMessage],
    and [GetModel] answers as before. *)
Theorem compute_global_average_empty :
  forall (T : Type) (H : Tensor T) (bytes : Type)
         (serialize_model : dict T -> bytes) (s : @Servicer T),
    local_averages s = [] ->
    _compute_global_average s = s /\
    aggregate_and_reset s = s /\
    state_dict (aggregate_and_reset s) = state_dict s /\
    GetModel serialize_model (aggregate_and_reset s) = GetModel serialize_model s.
Proof.
  intros T H bytes serialize_model s Hla.
  assert (Hc : _compute_global_average s = s).
  { unfold _compute_global_average. rewrite Hla. reflexivity. }
  assert (Ha : aggregate_and_reset s = s).
  { unfold aggregate_and_reset. rewrite Hc. destruct s; simpl in *.
    unfold set_local_averages; simpl. rewrite Hla. reflexivity. }
  rewrite Ha. repeat split; assumption.
Qed.

Lemma compute_global_average_empty_witness :
  _compute_global_average sample_server = sample_server /\
  state_dict (aggregate_and_reset sample_server) = None.
Proof.
  destruct (compute_global_average_empty float _ (dict float) (fun d => d)
              sample_server eq_refl) as (Hc & _ & Hs & _).
  split; [exact Hc | exact Hs].
Defined.

(** ** The identity registry *)

Section RegistryFacts.
Implicit Types (ids : gmap string UserInfo) (user_id : string).

Lemma sweep_lookup clock ids user_id :
  sweep clock ids !! user_id =
  (fun user_info => if stale (clock user_id) user_info
                    then set_status STATUS_DEAD user_info else user_info)
    <$> ids !! user_id.
Proof.
  unfold sweep. rewrite map_lookup_imap.
  destruct (ids !! user_id); reflexivity.
Qed.

Lemma sweep_dom clock ids : dom (sweep clock ids) = dom ids.
Proof.
  apply set_eq. intros x. rewrite !elem_of_dom, sweep_lookup.
  destruct (ids !! x); simpl; split; intros [? ?]; eauto; discriminate.
Qed.

Lemma count_alive_insert ids user_id user_info :
  ids !! user_id = None ->
  count_alive (<[user_id := user_info]> ids)
  = (if decide (status user_info = STATUS_ALIVE) then 1 else 0) + count_alive ids.
Proof.
  intros Hfresh. unfold count_alive.
  rewrite (map_to_list_insert _ _ _ Hfresh), filter_cons.
  unfold alive at 1. simpl. destruct (decide (status user_info = STATUS_ALIVE));
    reflexivity.
Qed.

Lemma count_alive_delete ids user_id user_info :
  ids !! user_id = Some user_info ->
  count_alive ids
  = (if decide (status user_info = STATUS_ALIVE) then 1 else 0)
    + count_alive (delete user_id ids).
Proof.
  intros Hin. rewrite <- (insert_delete_id ids user_id user_info Hin) at 1.
  apply count_alive_insert, lookup_delete_eq.
Qed.

Lemma count_alive_sweep clock ids :
  count_alive (sweep clock ids)
  = length (filter (survives clock) (map_to_list ids)).
Proof.
  induction ids as [|user_id user_info ids Hfresh IH] using map_ind.
  - unfold sweep. rewrite map_imap_empty, map_to_list_empty. reflexivity.
  - unfold sweep at 1.
    erewrite map_imap_insert_Some by reflexivity. fold (sweep clock ids).
    rewrite count_alive_insert by (rewrite sweep_lookup, Hfresh; reflexivity).
    rewrite IH, (map_to_list_insert _ _ _ Hfresh), filter_cons.
    destruct (decide (survives clock (user_id, user_info))) as [[Ha Hs]|Hn];
      unfold alive in *; simpl in *.
    + rewrite Hs, decide_True by assumption. reflexivity.
    + destruct (stale (clock user_id) user_info) eqn:Est; simpl.
      * reflexivity.
      * rewrite decide_False; [reflexivity|].
        intros Ha. apply Hn. split; [exact Ha | exact Est].
Qed.

End RegistryFacts.

(** C6: [GetSize] gives every session whose [last_active] lies more than
    300 seconds before the clock reading of its turn the status
    [STATUS_DEAD] and leaves the others as they are; no session leaves the
    registry; the size returned counts the sessions that are alive after
    the marking, that is, those that were alive and are not marked now; and
    [SendBye] for a session marked dead succeeds and removes it. *)
Theorem GetSize_marks_dead_and_counts_alive :
  forall (T : Type) (s : @Servicer T) (clock : string -> float),
    let s' := snd (GetSize clock s) in
    let n := comm_pb2.size (fst (GetSize clock s)) in
    (forall user_id user_info,
        user_ids s !! user_id = Some user_info ->
        user_ids s' !! user_id =
          Some (if stale (clock user_id) user_info
                then set_status STATUS_DEAD user_info else user_info)) /\
    dom (user_ids s') = dom (user_ids s) /\
    n = count_alive (user_ids s') /\
    n = length (filter (survives clock) (map_to_list (user_ids s))) /\
    (forall user_id user_info,
        user_ids s' !! user_id = Some user_info ->
        status user_info = STATUS_DEAD ->
        SendBye user_id s' = inr (set_user_ids (delete user_id (user_ids s')) s')).
Proof.
  intros T s clock. cbn zeta. simpl. split; [|split; [|split; [|split]]].
  - intros user_id user_info Hin. rewrite sweep_lookup, Hin. reflexivity.
  - apply sweep_dom.
  - reflexivity.
  - apply count_alive_sweep.
  - intros user_id user_info Hin _. unfold SendBye. simpl. rewrite Hin.
    reflexivity.
Qed.

Lemma GetSize_marks_dead_and_counts_alive_witness :
  let s' := snd (GetSize at_450 two_users) in
  status <$> user_ids two_users !! "0x5" = Some STATUS_ALIVE /\
  status <$> user_ids s' !! "0x5" = Some STATUS_DEAD /\
  status <$> user_ids s' !! "0x7" = Some STATUS_ALIVE /\
  comm_pb2.size (fst (GetSize at_450 two_users)) = 1 /\
  SendBye "0x5" s' = inr (set_user_ids (delete "0x5" (user_ids s')) s').
Proof.
  destruct (GetSize_marks_dead_and_counts_alive float two_users at_450)
    as (Hmark & _ & _ & Hcount & Hbye).
  cbn zeta in *. split; [|split; [|split; [|split]]].
  - vm_compute. reflexivity.
  - erewrite Hmark by (vm_compute; reflexivity). vm_compute. reflexivity.
  - erewrite Hmark by (vm_compute; reflexivity). vm_compute. reflexivity.
  - rewrite Hcount. vm_compute. reflexivity.
  - eapply Hbye.
    + erewrite Hmark by (vm_compute; reflexivity). reflexivity.
    + vm_compute. reflexivity.
Defined.

(** ** Calls one after another *)

Section CallFacts.
Context {T : Type} `{Tensor T} {bytes : Type}.
Context (serialize_model : dict T -> bytes).
Context (deserialize_model : bytes -> dict T).
Implicit Types (s : @Servicer T) (a : @action bytes) (user_id : string).

Lemma generate_ID_fresh draws s random_id rest :
  _generate_ID draws s = Some (random_id, rest) ->
  user_ids s !! random_id = None /\
  exists used int_id,
    draws = used ++ int_id :: rest /\
    random_id = hex (hash int_id) /\
    Forall (fun d => is_Some (user_ids s !! hex (hash d))) used.
Proof.
  induction draws as [|d draws IH]; simpl; [discriminate|].
  destruct (user_ids s !! hex (hash d)) as [u|] eqn:E.
  - intros Hgen. destruct (IH Hgen) as (Hfresh & used & int_id & -> & -> & Hused).
    split; [exact Hfresh|]. exists (d :: used), int_id.
    split; [reflexivity|]. split; [reflexivity|].
    constructor; [rewrite E; eauto | exact Hused].
  - intros [= <- <-]. split; [exact E|]. exists [], d.
    split; [reflexivity|]. split; [reflexivity | constructor].
Qed.

Lemma generate_ID_total draws s :
  (exists d, d ∈ draws /\ user_ids s !! hex (hash d) = None) ->
  is_Some (_generate_ID draws s).
Proof.
  induction draws as [|d draws IH]; simpl; intros (d' & Hin & Hfresh).
  - inversion Hin.
  - destruct (user_ids s !! hex (hash d)) as [u|] eqn:E; [|eauto].
    apply IH. exists d'. split; [|exact Hfresh].
    apply elem_of_cons in Hin as [->|Hin]; [congruence | exact Hin].
Qed.

Lemma GetID_spec draws now s r s' rest :
  GetID draws now s = Some (r, s', rest) ->
  user_ids s !! comm_pb2.id r = None /\
  comm_pb2.num r = size (user_ids s) + 1 /\
  user_ids s' =
    <[comm_pb2.id r := {| user_num := comm_pb2.num r; status := STATUS_ALIVE;
                          last_active := now |}]> (user_ids s).
Proof.
  unfold GetID. destruct (_generate_ID draws s) as [[random_id rest']|] eqn:E;
    [|discriminate].
  intros [= <- <- <-]. apply generate_ID_fresh in E as [Hfresh _].
  simpl. auto.
Qed.

Lemma append_update_user_ids buffer s :
  user_ids (fst (append_update deserialize_model buffer s)) = user_ids s.
Proof. reflexivity. Qed.

Lemma aggregate_and_reset_user_ids s :
  user_ids (aggregate_and_reset s) = user_ids s.
Proof.
  unfold aggregate_and_reset, _compute_global_average.
  destruct (local_averages s); reflexivity.
Qed.

Lemma heartbeat_dom user_id now s s' :
  heartbeat user_id now s = inr s' -> dom (user_ids s') = dom (user_ids s).
Proof.
  unfold heartbeat. destruct (user_ids s !! user_id) as [u|] eqn:E; [|discriminate].
  intros [= <-]. simpl. rewrite dom_insert_L.
  apply elem_of_dom_2 in E. apply subseteq_union_1_L, singleton_subseteq_l, E.
Qed.

(** What a call other than [SendBye] does to the set of registered ids. *)
Lemma perform_registered a s r s' :
  ~ is_SendBye a ->
  perform serialize_model deserialize_model a s = Some (r, s') ->
  match r with
  | ReplyID rid =>
      (comm_pb2.id rid ∉ dom (user_ids s)) /\
      dom (user_ids s') = {[comm_pb2.id rid]} ∪ dom (user_ids s) /\
      comm_pb2.num rid = size (user_ids s) + 1
  | _ => dom (user_ids s') = dom (user_ids s)
  end.
Proof.
  intros Hbye. destruct a as [draws now|clock| |user_id|user_id now|buffer|]; simpl.
  - destruct (GetID draws now s) as [[[rid s1] rest]|] eqn:E; [|discriminate].
    intros [= <- <-]. apply GetID_spec in E as (Hfresh & Hnum & ->).
    split; [apply not_elem_of_dom, Hfresh|]. split; [apply dom_insert_L | exact Hnum].
  - intros [= <- <-]. apply sweep_dom.
  - intros [= <- <-]. reflexivity.
  - exfalso. apply Hbye. exact I.
  - destruct (heartbeat user_id now s) as [e|s1] eqn:E; intros [= <- <-].
    + reflexivity.
    + eapply heartbeat_dom, E.
  - intros [= <- <-]. reflexivity.
  - intros [= <- <-]. rewrite aggregate_and_reset_user_ids. reflexivity.
Qed.

(** Only [GetID] answers with an id, and it always does. *)
Lemma perform_reply_kind a s r s' :
  perform serialize_model deserialize_model a s = Some (r, s') ->
  issued [r] = [] /\ registrations [a] = 0 \/
  (exists rid, r = ReplyID rid) /\ registrations [a] = 1.
Proof.
  destruct a as [draws now|clock| |user_id|user_id now|buffer|]; simpl.
  - destruct (GetID draws now s) as [[[rid s1] rest]|]; [|discriminate].
    intros [= <- <-]. right. eauto.
  - intros [= <- <-]. left. auto.
  - intros [= <- <-]. left. auto.
  - destruct (SendBye user_id s); intros [= <- <-]; left; auto.
  - destruct (heartbeat user_id now s); intros [= <- <-]; left; auto.
  - intros [= <- <-]. left. auto.
  - intros [= <- <-]. left. auto.
Qed.

Lemma issued_cons (r : @reply bytes) rs : issued (r :: rs) = issued [r] ++ issued rs.
Proof. destruct r; reflexivity. Qed.

Lemma registrations_cons a acts :
  registrations (a :: acts) = registrations [a] + registrations acts.
Proof. destruct a; reflexivity. Qed.

Lemma run_issued_length acts : forall s replies s',
  run serialize_model deserialize_model acts s = Some (replies, s') ->
  length (issued replies) = registrations acts.
Proof.
  induction acts as [|a acts IH]; intros s replies s'; cbn [run].
  - intros [= <- <-]. reflexivity.
  - destruct (perform serialize_model deserialize_model a s) as [[r s1]|] eqn:Ep;
      [|discriminate].
    destruct (run serialize_model deserialize_model acts s1) as [[rs s2]|] eqn:Er;
      [|discriminate].
    intros [= <- <-]. rewrite issued_cons, registrations_cons, length_app.
    rewrite (IH _ _ _ Er).
    destruct (perform_reply_kind _ _ _ _ Ep) as [[-> ->]|[[rid ->] ->]];
      reflexivity.
Qed.

Lemma run_issued acts : forall s replies s',
  Forall (fun a => ~ is_SendBye a) acts ->
  run serialize_model deserialize_model acts s = Some (replies, s') ->
  let ids := map comm_pb2.id (issued replies) in
  NoDup ids /\
  (forall x, x ∈ ids -> x ∉ dom (user_ids s)) /\
  dom (user_ids s') = list_to_set ids ∪ dom (user_ids s) /\
  map comm_pb2.num (issued replies)
    = seq (size (user_ids s) + 1) (length (issued replies)).
Proof.
  induction acts as [|a acts IH]; intros s replies s' Hacts; cbn [run].
  - intros [= <- <-]. simpl. split; [constructor|].
    split; [intros x Hx; inversion Hx|]. split; [|reflexivity].
    rewrite union_empty_l_L. reflexivity.
  - apply Forall_cons in Hacts as [Ha Hacts].
    destruct (perform serialize_model deserialize_model a s) as [[r s1]|] eqn:Ep;
      [|discriminate].
    destruct (run serialize_model deserialize_model acts s1) as [[rs s2]|] eqn:Er;
      [|discriminate].
    intros [= <- <-].
    destruct (IH _ _ _ Hacts Er) as (Hnd & Hfresh & Hdom & Hnum).
    pose proof (perform_registered a s r s1 Ha Ep) as Hp.
    destruct (perform_reply_kind _ _ _ _ Ep) as [[Hnone _]|[[rid ->] _]].
    + assert (Heq : dom (user_ids s1) = dom (user_ids s))
        by (destruct r; first [discriminate Hnone | exact Hp]).
      rewrite issued_cons, Hnone. cbn [app]. cbn zeta. rewrite <- Heq.
      replace (size (user_ids s)) with (size (user_ids s1))
        by (rewrite <- !size_dom, Heq; reflexivity).
      auto.
    + destruct Hp as (Hnew & Hdom1 & Hnum1). cbn [issued map length].
      assert (Hsize : size (user_ids s1) = S (size (user_ids s))).
      { rewrite <- !size_dom, Hdom1, size_union, size_singleton.
        - reflexivity.
        - apply disjoint_singleton_l, Hnew. }
      assert (Hsub : forall x, x ∉ dom (user_ids s1) -> x ∉ dom (user_ids s)).
      { intros x Hx Hin. apply Hx. rewrite Hdom1. apply elem_of_union_r, Hin. }
      assert (Hrid : comm_pb2.id rid ∈ dom (user_ids s1)).
      { rewrite Hdom1. apply elem_of_union_l, elem_of_singleton. reflexivity. }
      split; [|split; [|split]].
      * apply NoDup_cons. split; [|exact Hnd].
        intros Hin. apply (Hfresh _ Hin), Hrid.
      * intros x Hx. apply elem_of_cons in Hx as [->|Hx]; [exact Hnew|].
        apply Hsub, Hfresh, Hx.
      * rewrite Hdom, Hdom1, list_to_set_cons. apply set_eq. intros y.
        rewrite !elem_of_union. tauto.
      * rewrite Hnum, Hnum1, Hsize. cbn [seq]. repeat f_equal; lia.
Qed.

End CallFacts.

Section Reissue.
Context {T : Type} `{Tensor T} {bytes : Type}.
Context (serialize_model : dict T -> bytes).
Context (deserialize_model : bytes -> dict T).
Implicit Types (s : @Servicer T) (a : @action bytes) (user_id : string).

(** A session stays registered until its own [SendBye]. *)
Lemma perform_keeps_registered a s r s' user_id :
  is_Some (user_ids s !! user_id) ->
  ~ is_SendBye_of user_id a ->
  perform serialize_model deserialize_model a s = Some (r, s') ->
  is_Some (user_ids s' !! user_id).
Proof.
  intros [user_info Hin] Hbye.
  destruct a as [draws now|clock| |user_id'|user_id' now|buffer|]; simpl.
  - destruct (GetID draws now s) as [[[rid s1] rest]|] eqn:E; [|discriminate].
    intros [= <- <-]. apply GetID_spec in E as (Hfresh & _ & ->).
    rewrite lookup_insert_ne; [eauto | congruence].
  - intros [= <- <-]. simpl. rewrite sweep_lookup, Hin. simpl. eauto.
  - intros [= <- <-]. eauto.
  - unfold SendBye. destruct (user_ids s !! user_id') eqn:E; intros [= <- <-].
    + simpl. rewrite lookup_delete_ne; [eauto|].
      intros ->. apply Hbye. reflexivity.
    + eauto.
  - unfold heartbeat. destruct (user_ids s !! user_id') as [u|] eqn:E;
      intros [= <- <-]; [|eauto].
    simpl. destruct (decide (user_id' = user_id)) as [->|Hne].
    + rewrite lookup_insert_eq. eauto.
    + rewrite lookup_insert_ne by exact Hne. eauto.
  - intros [= <- <-]. eauto.
  - intros [= <- <-]. rewrite aggregate_and_reset_user_ids. eauto.
Qed.

Lemma run_keeps_registered acts : forall s replies s' user_id,
  is_Some (user_ids s !! user_id) ->
  Forall (fun a => ~ is_SendBye_of user_id a) acts ->
  run serialize_model deserialize_model acts s = Some (replies, s') ->
  is_Some (user_ids s' !! user_id).
Proof.
  induction acts as [|a acts IH]; intros s replies s' user_id Hin Hacts; cbn [run].
  - intros [= <- <-]. exact Hin.
  - apply Forall_cons in Hacts as [Ha Hacts].
    destruct (perform serialize_model deserialize_model a s) as [[r s1]|] eqn:Ep;
      [|discriminate].
    destruct (run serialize_model deserialize_model acts s1) as [[rs s2]|] eqn:Er;
      [|discriminate].
    intros [= <- <-]. eapply IH; [|exact Hacts|exact Er].
    eapply perform_keeps_registered; eauto.
Qed.

End Reissue.

(** The statement of C7 fails for the sequences that hold a
    deregistration: a client registers and says goodbye, and the next
    [GetID], drawing the same integer, returns the id a second time. *)
Lemma GetID_distinct_ids_counterexample :
  ~ (forall (acts : list (@action (dict float))) replies s',
        run (fun d => d) (fun d => d) acts sample_server = Some (replies, s') ->
        NoDup (map comm_pb2.id (issued replies))).
Proof.
  intros Hclaim.
  destruct (run (fun d => d) (fun d => d) reissue_calls sample_server)
    as [[replies s']|] eqn:Er; [|vm_compute in Er; discriminate Er].
  specialize (Hclaim _ _ _ Er).
  assert (Hids : match run (fun d => d) (fun d => d) reissue_calls sample_server with
                 | Some (rs, _) => map comm_pb2.id (issued rs)
                 | None => []
                 end = ["0x9"; "0x9"]) by (vm_compute; reflexivity).
  rewrite Er in Hids. rewrite Hids in Hclaim.
  apply NoDup_cons in Hclaim as [Hnot _]. apply Hnot, list_elem_of_here.
Qed.

(** C7, as the code has it: an id is checked against the sessions
    registered at the time of the call.  Each [GetID] returns the first
    drawn id that is not a key of [user_ids], every draw before it having
    collided, so the id returned is never registered already, and it does
    return when some draw is free.  Hence an id differs from every id
    handed out before whose session has not said goodbye in between; and in
    a run of calls from a fresh servicer with no [SendBye] among them, the
    [k] calls of [GetID] return [k] ids that differ pairwise and the
    ordinals [1..k] in the order of the calls. *)
Theorem GetID_distinct_ids_and_ordinals :
  forall (T : Type) (H : Tensor T) (bytes : Type)
         (ser : dict T -> bytes) (deser : bytes -> dict T),
    (forall (model0 : dict T) (acts : list action) replies s',
        Forall (fun a => ~ is_SendBye a) acts ->
        run ser deser acts (init model0) = Some (replies, s') ->
        length (issued replies) = registrations acts /\
        NoDup (map comm_pb2.id (issued replies)) /\
        map comm_pb2.num (issued replies) = seq 1 (registrations acts)) /\
    (forall (s : @Servicer T) draws now r s' rest,
        GetID draws now s = Some (r, s', rest) ->
        user_ids s !! comm_pb2.id r = None /\
        exists used int_id,
          draws = used ++ int_id :: rest /\
          comm_pb2.id r = hex (hash int_id) /\
          Forall (fun d => is_Some (user_ids s !! hex (hash d))) used) /\
    (forall (s : @Servicer T) draws now,
        (exists d, d ∈ draws /\ user_ids s !! hex (hash d) = None) ->
        is_Some (GetID draws now s)) /\
    (forall (s s1 s2 s3 : @Servicer T) draws1 now1 r1 rest1
            (acts : list action) replies draws2 now2 r2 rest2,
        GetID draws1 now1 s = Some (r1, s1, rest1) ->
        Forall (fun a => ~ is_SendBye_of (comm_pb2.id r1) a) acts ->
        run ser deser acts s1 = Some (replies, s2) ->
        GetID draws2 now2 s2 = Some (r2, s3, rest2) ->
        comm_pb2.id r2 <> comm_pb2.id r1).
Proof.
  intros T H bytes ser deser. split; [|split; [|split]].
  - intros model0 acts replies s' Hacts Hrun.
    destruct (run_issued ser deser acts _ _ _ Hacts Hrun) as (Hnd & _ & _ & Hnum).
    pose proof (run_issued_length ser deser acts _ _ _ Hrun) as Hlen.
    split; [exact Hlen|]. split; [exact Hnd|].
    rewrite Hnum, Hlen. reflexivity.
  - intros s draws now r s' rest. unfold GetID.
    destruct (_generate_ID draws s) as [[random_id rest']|] eqn:E; [|discriminate].
    intros [= <- <- <-]. apply generate_ID_fresh, E.
  - intros s draws now Hfree. unfold GetID.
    destruct (generate_ID_total draws s Hfree) as [[random_id rest] ->]. eauto.
  - intros s s1 s2 s3 draws1 now1 r1 rest1 acts replies draws2 now2 r2 rest2
           Hget1 Hacts Hrun Hget2.
    apply GetID_spec in Hget1 as (_ & _ & Hids1).
    assert (Hin1 : is_Some (user_ids s1 !! comm_pb2.id r1))
      by (rewrite Hids1, lookup_insert_eq; eauto).
    destruct (run_keeps_registered ser deser acts _ _ _ _ Hin1 Hacts Hrun)
      as [u Hu].
    apply GetID_spec in Hget2 as (Hfresh2 & _).
    intros Heq. rewrite Heq in Hfresh2. congruence.
Qed.

Lemma GetID_distinct_ids_and_ordinals_witness :
  exists replies s',
    run (fun d => d) (fun d => d) sample_calls sample_server = Some (replies, s') /\
    map comm_pb2.id (issued replies) = ["0x5"; "0x7"] /\
    NoDup (map comm_pb2.id (issued replies)) /\
    map comm_pb2.num (issued replies) = [1; 2].
Proof.
  destruct (run (fun d => d) (fun d => d) sample_calls sample_server)
    as [[replies s']|] eqn:Er; [|vm_compute in Er; discriminate Er].
  exists replies, s'. split; [reflexivity|].
  assert (Hacts : Forall (fun a : @action (dict float) => ~ is_SendBye a) sample_calls)
    by (unfold sample_calls; repeat (apply Forall_cons; split);
        try apply Forall_nil_2; intros []).
  destruct (proj1 (GetID_distinct_ids_and_ordinals float _ (dict float)
                     (fun d => d) (fun d => d))
              sample_model sample_calls replies s' Hacts Er) as (_ & Hnd & Hnum).
  split; [|split; [exact Hnd | exact Hnum]].
  assert (Hids : match run (fun d => d) (fun d => d) sample_calls sample_server with
                 | Some (rs, _) => map comm_pb2.id (issued rs)
                 | None => []
                 end = ["0x5"; "0x7"]) by (vm_compute; reflexivity).
  rewrite Er in Hids. exact Hids.
Defined.

(** ** Sessions marked dead *)

Section DeadSessions.
Context {T : Type} `{Tensor T} {bytes : Type}.
Context (serialize_model : dict T -> bytes).
Context (deserialize_model : bytes -> dict T).
Implicit Types (s : @Servicer T) (a : @action bytes) (user_id : string).

Lemma perform_keeps_dead a s r s' user_id n :
  dead_at user_id n s ->
  ~ is_SendBye_of user_id a ->
  perform serialize_model deserialize_model a s = Some (r, s') ->
  dead_at user_id n s'.
Proof.
  intros (user_info & Hin & Hdead & Hnum) Hbye. unfold dead_at.
  destruct a as [draws now|clock| |user_id'|user_id' now|buffer|]; simpl.
  - destruct (GetID draws now s) as [[[rid s1] rest]|] eqn:E; [|discriminate].
    intros [= <- <-]. apply GetID_spec in E as (Hfresh & _ & ->).
    exists user_info. split; [|auto].
    rewrite lookup_insert_ne; [exact Hin | congruence].
  - intros [= <- <-]. simpl. rewrite sweep_lookup, Hin. simpl.
    eexists. split; [reflexivity|].
    destruct (stale (clock user_id) user_info); simpl; auto.
  - intros [= <- <-]. exists user_info. auto.
  - unfold SendBye. destruct (user_ids s !! user_id') eqn:E; intros [= <- <-].
    + exists user_info. split; [|auto]. simpl.
      rewrite lookup_delete_ne; [exact Hin|].
      intros ->. apply Hbye. reflexivity.
    + exists user_info. auto.
  - unfold heartbeat. destruct (user_ids s !! user_id') as [u|] eqn:E;
      intros [= <- <-]; [|exists user_info; auto].
    simpl. destruct (decide (user_id' = user_id)) as [->|Hne].
    + rewrite lookup_insert_eq. eexists. split; [reflexivity|].
      assert (u = user_info) by congruence. subst u. simpl. auto.
    + rewrite lookup_insert_ne by exact Hne. exists user_info. auto.
  - intros [= <- <-]. exists user_info. auto.
  - intros [= <- <-]. rewrite aggregate_and_reset_user_ids. exists user_info. auto.
Qed.

Lemma run_keeps_dead acts : forall s replies s' user_id n,
  dead_at user_id n s ->
  Forall (fun a => ~ is_SendBye_of user_id a) acts ->
  run serialize_model deserialize_model acts s = Some (replies, s') ->
  dead_at user_id n s'.
Proof.
  induction acts as [|a acts IH]; intros s replies s' user_id n Hdead Hacts;
    cbn [run].
  - intros [= <- <-]. exact Hdead.
  - apply Forall_cons in Hacts as [Ha Hacts].
    destruct (perform serialize_model deserialize_model a s) as [[r s1]|] eqn:Ep;
      [|discriminate].
    destruct (run serialize_model deserialize_model acts s1) as [[rs s2]|] eqn:Er;
      [|discriminate].
    intros [= <- <-]. eapply IH; [|exact Hacts|exact Er].
    eapply perform_keeps_dead; eauto.
Qed.

Lemma dead_not_counted user_id n s :
  dead_at user_id n s ->
  count_alive (user_ids s) = count_alive (delete user_id (user_ids s)).
Proof.
  intros (user_info & Hin & Hdead & _).
  rewrite (count_alive_delete _ _ _ Hin), decide_False; [reflexivity|].
  rewrite Hdead. discriminate.
Qed.

End DeadSessions.

(** C9: a session that is dead stays in the registry and stays dead
    through any calls that do not deregister it, so it adds nothing to the
    count of alive sessions: a heartbeat of [SendMessage] changes its
    [last_active] only, and every [GetSize] afterwards reports the number
    of the other sessions that are alive. *)
Theorem dead_session_stays_dead :
  forall (T : Type) (H : Tensor T) (bytes : Type)
         (ser : dict T -> bytes) (deser : bytes -> dict T)
         (s : @Servicer T) user_id user_info (acts : list action) replies s',
    user_ids s !! user_id = Some user_info ->
    status user_info = STATUS_DEAD ->
    Forall (fun a => ~ is_SendBye_of user_id a) acts ->
    run ser deser acts s = Some (replies, s') ->
    dead_at user_id (user_num user_info) s' /\
    count_alive (user_ids s') = count_alive (delete user_id (user_ids s')) /\
    (forall now, exists s'',
        heartbeat user_id now s' = inr s'' /\
        dead_at user_id (user_num user_info) s'' /\
        last_active <$> user_ids s'' !! user_id = Some now) /\
    (forall clock,
        comm_pb2.size (fst (GetSize clock s'))
          = count_alive (delete user_id (user_ids (snd (GetSize clock s')))) /\
        dead_at user_id (user_num user_info) (snd (GetSize clock s'))).
Proof.
  intros T H bytes ser deser s user_id user_info acts replies s'
         Hin Hdead Hacts Hrun.
  assert (Hs' : dead_at user_id (user_num user_info) s').
  { eapply (run_keeps_dead ser deser); [|exact Hacts|exact Hrun].
    exists user_info. auto. }
  split; [exact Hs'|]. split; [apply (dead_not_counted _ _ _ Hs')|]. split.
  - intros now. destruct Hs' as (u & Hu & Hd & Hn). unfold heartbeat.
    rewrite Hu. eexists. split; [reflexivity|].
    unfold dead_at. cbn [user_ids set_user_ids].
    rewrite lookup_insert_eq. split; [|reflexivity].
    eexists. split; [reflexivity|]. simpl. auto.
  - intros clock.
    assert (Hg : dead_at user_id (user_num user_info) (snd (GetSize clock s'))).
    { eapply (perform_keeps_dead ser deser (CallGetSize clock));
        [exact Hs' | intros [] | reflexivity]. }
    split; [|exact Hg]. apply (dead_not_counted _ _ _ Hg).
Qed.

Lemma dead_session_stays_dead_witness :
  exists replies s',
    run (fun d => d) (fun d => d) later_calls swept_users = Some (replies, s') /\
    dead_at "0x5" 1 s' /\
    comm_pb2.size (fst (GetSize (fun _ => 490%float) s'))
      = count_alive (delete "0x5" (user_ids (snd (GetSize (fun _ => 490%float) s')))).
Proof.
  assert (Hacts : Forall (fun a : @action (dict float) => ~ is_SendBye_of "0x5" a)
                         later_calls).
  { unfold later_calls. repeat (apply Forall_cons; split); try apply Forall_nil_2;
      simpl; first [intros [=] | intros []]. }
  destruct (run (fun d => d) (fun d => d) later_calls swept_users)
    as [[replies s']|] eqn:Er; [|vm_compute in Er; discriminate Er].
  exists replies, s'. split; [reflexivity|].
  destruct (dead_session_stays_dead float _ (dict float) (fun d => d) (fun d => d)
              swept_users "0x5"
              {| user_num := 1; status := STATUS_DEAD; last_active := 100%float |}
              later_calls replies s') as (Hd & _ & _ & Hsize).
  - vm_compute. reflexivity.
  - reflexivity.
  - exact Hacts.
  - exact Er.
  - split; [exact Hd|]. exact (proj1 (Hsize (fun _ => 490%float))).
Defined.

(** C8: the first step of a [SendMessage] call looks its id up in
    [user_ids].  For an id that is not registered the call fails there,
    with the [KeyError] of the lookup, before anything is collected, and
    does nothing more; for a registered id the step sets the session's
    [last_active] to the clock reading and leaves everything else,
    the session's status included, as it was. *)
Theorem SendMessage_unknown_id_or_heartbeat :
  forall (T : Type) (H : Tensor T) (bytes : Type) (deser : bytes -> dict T)
         (clock : nat -> float) (i : nat) (w : World) (c : Call),
    calls w !! i = Some c ->
    (at_pc c = AtHeartbeat ->
     user_ids (servicer w) !! request_id c = None ->
     step deser clock i w
       = Some (EvRaise i (KeyError (request_id c)),
               {| servicer := servicer w;
                  calls := <[i := move c (Raised (KeyError (request_id c)))]> (calls w) |}) /\
     submit_entry deser (request_id c) (clock i) (request_buffer c) (servicer w)
       = inl (KeyError (request_id c))) /\
    (forall e, at_pc c = Raised e -> step deser clock i w = None) /\
    (forall user_info,
        at_pc c = AtHeartbeat ->
        user_ids (servicer w) !! request_id c = Some user_info ->
        let s' := set_user_ids
                    (<[request_id c := set_last_active (clock i) user_info]>
                       (user_ids (servicer w))) (servicer w) in
        step deser clock i w
          = Some (EvHeartbeat i,
                  {| servicer := s'; calls := <[i := move c AtAppend]> (calls w) |}) /\
        user_ids s' !! request_id c
          = Some {| user_num := user_num user_info; status := status user_info;
                    last_active := clock i |} /\
        local_averages s' = local_averages (servicer w) /\
        state_dict s' = state_dict (servicer w)).
Proof.
  intros T H bytes deser clock i w c Hc. split; [|split].
  - intros Hpc Hnew. unfold step, submit_entry, heartbeat.
    rewrite Hc, Hpc, Hnew. split; reflexivity.
  - intros e Hpc. unfold step. rewrite Hc, Hpc. reflexivity.
  - intros user_info Hpc Hin. cbn zeta. unfold step, heartbeat.
    rewrite Hc, Hpc, Hin. split; [reflexivity|].
    cbn [user_ids set_user_ids local_averages state_dict].
    rewrite lookup_insert_eq. auto.
Qed.

Lemma SendMessage_unknown_id_or_heartbeat_witness :
  (exists w', step (fun d => d) at_500 1 stranger_world
              = Some (EvRaise 1 (KeyError "0xdead"), w') /\
              servicer w' = servicer stranger_world) /\
  (exists w', step (fun d => d) at_500 0 stranger_world = Some (EvHeartbeat 0, w') /\
              last_active <$> user_ids (servicer w') !! "0x5" = Some 500%float).
Proof.
  split.
  - destruct (SendMessage_unknown_id_or_heartbeat float _ (dict float)
                (fun d => d) at_500 1 stranger_world
                {| request_id := "0xdead"; request_buffer := [("a", 4%float)];
                   at_pc := AtHeartbeat |} eq_refl) as (Hraise & _ & _).
    destruct Hraise as [Hstep _]; [reflexivity | vm_compute; reflexivity |].
    eexists. split; [exact Hstep | reflexivity].
  - destruct (SendMessage_unknown_id_or_heartbeat float _ (dict float)
                (fun d => d) at_500 0 stranger_world
                {| request_id := "0x5"; request_buffer := [("a", 2%float)];
                   at_pc := AtHeartbeat |} eq_refl) as (_ & _ & Hbeat).
    destruct (Hbeat {| user_num := 1; status := STATUS_ALIVE;
                       last_active := 100%float |})
      as (Hstep & Hlook & _); [reflexivity | vm_compute; reflexivity |].
    eexists. split; [exact Hstep|].
    exact (f_equal (fmap last_active) Hlook).
Defined.

(** ** Submissions and the snapshot *)

(** The statement of C4 fails: a client that is in an open round submits
    again and no error is raised. *)
Lemma SendMessage_duplicate_counterexample :
  ~ (forall (s s1 : @Servicer float) user_id now1 now2 (b1 b2 : dict float),
        is_Some (user_ids s !! user_id) ->
        submit_entry (fun d => d) user_id now1 b1 s = inr (s1, false) ->
        exists e, submit_entry (fun d => d) user_id now2 b2 s1 = inl e).
Proof.
  intros Hclaim.
  destruct (Hclaim two_users one_collected "0x5" 400%float 410%float
              [("a", 2%float)] [("a", 4%float)]) as [e He].
  - vm_compute. eauto.
  - vm_compute. reflexivity.
  - vm_compute in He. discriminate He.
Qed.

(** C4, as the code has it: [SendMessage] keeps no record of who
    submitted.  A second call by a registered client is taken like the
    first: its map is appended after the first one and counted in
    [num_clients], and it calls [notify_all] when the count reaches the
    target. *)
Theorem SendMessage_second_submission_is_collected :
  forall (T : Type) (bytes : Type) (deser : bytes -> dict T)
         (s : @Servicer T) user_id user_info now1 now2 (b1 b2 : bytes),
    user_ids s !! user_id = Some user_info ->
    exists s1 n1 s2,
      submit_entry deser user_id now1 b1 s = inr (s1, n1) /\
      submit_entry deser user_id now2 b2 s1
        = inr (s2, target_clients s <=? length (local_averages s) + 2) /\
      local_averages s2 = local_averages s ++ [deser b1; deser b2] /\
      num_clients s2 = Some (length (local_averages s) + 2).
Proof.
  intros T bytes deser s user_id user_info now1 now2 b1 b2 Hin.
  unfold submit_entry, heartbeat. rewrite Hin. cbn [append_update].
  eexists _, _, _. split; [reflexivity|].
  cbn [user_ids set_user_ids set_num_clients set_local_averages].
  rewrite lookup_insert_eq. unfold append_update.
  cbn [local_averages target_clients num_clients set_user_ids set_num_clients
       set_local_averages].
  rewrite <- !app_assoc, !length_app. cbn [app length].
  split; [reflexivity|]. split; reflexivity.
Qed.

Lemma SendMessage_second_submission_is_collected_witness :
  exists s1 s2,
    submit_entry (fun d => d) "0x5" 400%float [("a", 2%float)] two_users
      = inr (s1, false) /\
    submit_entry (fun d => d) "0x5" 410%float [("a", 4%float)] s1 = inr (s2, true) /\
    local_averages s2 = [[("a", 2%float)]; [("a", 4%float)]].
Proof.
  destruct (SendMessage_second_submission_is_collected float (dict float)
              (fun d => d) two_users "0x5"
              {| user_num := 1; status := STATUS_ALIVE; last_active := 100%float |}
              400%float 410%float [("a", 2%float)] [("a", 4%float)])
    as (s1 & n1 & s2 & H1 & H2 & Hla & _).
  - vm_compute. reflexivity.
  - exists s1, s2. split; [|split; [exact H2 | exact Hla]].
    rewrite H1. do 2 f_equal.
    assert (Hn : match submit_entry (fun d => d) "0x5" 400%float
                         [("a", 2%float)] two_users with
                 | inr (_, n) => n
                 | inl _ => true
                 end = false) by (vm_compute; reflexivity).
    rewrite H1 in Hn. exact Hn.
Defined.

(** The statement of C5 fails twice: before any round completes
    [GetModel] answers with a parameter map, the server's own; and after a
    round whose aggregate is empty it answers with that map again, not with
    the aggregate published. *)
Lemma GetModel_unset_counterexample :
  ~ (forall s : @Servicer float,
        state_dict s = None ->
        forall m : dict float,
          GetModel (fun d => d) s <> {| comm_pb2.buffer := m |}) /\
  ~ (forall (s : @Servicer float) avg,
        state_dict s = Some avg ->
        GetModel (fun d => d) s = {| comm_pb2.buffer := avg |}).
Proof.
  split.
  - intros Hclaim. apply (Hclaim sample_server eq_refl sample_model). reflexivity.
  - intros Hclaim.
    assert (Hsd : state_dict (aggregate_and_reset only_bn) = Some [])
      by (vm_compute; reflexivity).
    specialize (Hclaim _ _ Hsd). vm_compute in Hclaim. discriminate Hclaim.
Qed.

(** C5, as the code has it: while [state_dict] is [None], and also when
    it is an empty dictionary, [GetModel] returns the parameters of the
    server's own model, so a fresh server answers with its initial model;
    otherwise it returns [state_dict], which is what the last
    [_compute_global_average] on a non-empty collection stored. *)
Theorem GetModel_model_or_snapshot :
  forall (T : Type) (H : Tensor T) (bytes : Type) (ser : dict T -> bytes)
         (s : @Servicer T),
    (state_dict s = None ->
     GetModel ser s = {| comm_pb2.buffer := ser (model s) |}) /\
    (state_dict s = Some [] ->
     GetModel ser s = {| comm_pb2.buffer := ser (model s) |}) /\
    (forall item items,
        state_dict s = Some (item :: items) ->
        GetModel ser s = {| comm_pb2.buffer := ser (item :: items) |}) /\
    (forall model0, GetModel ser (init model0) = {| comm_pb2.buffer := ser model0 |}) /\
    (forall m ms,
        local_averages s = m :: ms ->
        state_dict (aggregate_and_reset s) = Some (global_average (m :: ms)) /\
        GetModel ser (aggregate_and_reset s)
          = {| comm_pb2.buffer :=
                 ser (match global_average (m :: ms) with
                      | [] => model s
                      | item :: items => item :: items
                      end) |}).
Proof.
  intros T H bytes ser s. unfold GetModel.
  split; [intros ->; reflexivity|]. split; [intros ->; reflexivity|].
  split; [intros item items ->; reflexivity|]. split; [reflexivity|].
  intros m ms Hla.
  assert (Hsd : state_dict (aggregate_and_reset s) = Some (global_average (m :: ms))).
  { unfold aggregate_and_reset. cbn [state_dict set_local_averages].
    apply compute_global_average_stores, Hla. }
  assert (Hm : model (aggregate_and_reset s) = model s).
  { unfold aggregate_and_reset, _compute_global_average. rewrite Hla. reflexivity. }
  split; [exact Hsd|]. rewrite Hsd, Hm.
  destruct (global_average (m :: ms)); reflexivity.
Qed.

Lemma GetModel_model_or_snapshot_witness :
  GetModel (fun d => d) sample_server = {| comm_pb2.buffer := sample_model |} /\
  GetModel (fun d => d) (aggregate_and_reset two_of_five)
    = {| comm_pb2.buffer := [("a", 3%float)] |} /\
  GetModel (fun d => d) (aggregate_and_reset only_bn)
    = {| comm_pb2.buffer := sample_model |}.
Proof.
  split; [|split].
  - exact (proj1 (GetModel_model_or_snapshot float _ (dict float) (fun d => d)
                    sample_server) eq_refl).
  - destruct (GetModel_model_or_snapshot float _ (dict float) (fun d => d) two_of_five)
      as (_ & _ & _ & _ & Hround).
    destruct (Hround [("a", 2%float)] [[("a", 4%float)]] eq_refl) as [_ ->].
    vm_compute. reflexivity.
  - destruct (GetModel_model_or_snapshot float _ (dict float) (fun d => d) only_bn)
      as (_ & _ & _ & _ & Hround).
    destruct (Hround [("bn1.weight", 1%float)] [[("bn1.weight", 3%float)]] eq_refl)
      as [_ ->].
    vm_compute. reflexivity.
Defined.

(** ** Rounds of concurrent [SendMessage] calls *)

Section RoundFacts.
Context {T : Type} `{Tensor T} {bytes : Type}.
Context (deserialize_model : bytes -> dict T).
Implicit Types (cs : list (@Call bytes)) (c : @Call bytes) (w : @World T bytes).
Implicit Types (tr : list event) (e : event) (i : nat).

Lemma total_insert (f : Call -> nat) cs i c c' :
  cs !! i = Some c ->
  total f (<[i := c']> cs) + f c = total f cs + f c'.
Proof.
  unfold total. revert i. induction cs as [|c0 cs IH]; intros [|i]; simpl;
    try discriminate.
  - intros [= ->]. lia.
  - intros Hc. specialize (IH _ Hc). lia.
Qed.

Lemma count_insert (P : Call -> bool) cs i c c' :
  cs !! i = Some c ->
  count P (<[i := c']> cs) + (if P c then 1 else 0)
  = count P cs + (if P c' then 1 else 0).
Proof. apply (total_insert (fun c => if P c then 1 else 0)). Qed.

Lemma total_notify_all_le (f : Call -> nat) cs :
  (forall c, f (wake c) <= f c) ->
  total f (notify_all cs) <= total f cs.
Proof.
  intros Hf. unfold total, notify_all.
  induction cs as [|c cs IH]; simpl; [lia|]. specialize (Hf c). lia.
Qed.

Lemma count_notify_all (P : Call -> bool) cs :
  (forall c, P (wake c) = P c) ->
  count P (notify_all cs) = count P cs.
Proof.
  intros HP. unfold count, total, notify_all.
  induction cs as [|c cs IH]; simpl; [reflexivity|]. rewrite HP, IH. reflexivity.
Qed.

Lemma count_le_length (P : Call -> bool) cs : count P cs <= length cs.
Proof.
  unfold count, total. induction cs as [|c cs IH]; simpl; [lia|].
  destruct (P c); lia.
Qed.

Lemma count_lt_length (P : Call -> bool) cs i c :
  cs !! i = Some c -> P c = false -> count P cs < length cs.
Proof.
  unfold count, total. revert i. induction cs as [|c0 cs IH]; intros [|i]; simpl;
    try discriminate.
  - intros [= ->] ->. pose proof (count_le_length P cs) as Hle.
    unfold count, total in Hle. lia.
  - intros Hc Hp. specialize (IH _ Hc Hp). destruct (P c0); lia.
Qed.

Lemma count_pos (P : Call -> bool) cs i c :
  cs !! i = Some c -> P c = true -> 0 < count P cs.
Proof.
  unfold count, total. revert i. induction cs as [|c0 cs IH]; intros [|i]; simpl;
    try discriminate.
  - intros [= ->] ->. lia.
  - intros Hc Hp. specialize (IH _ Hc Hp). lia.
Qed.

Lemma count_zero (P : Call -> bool) cs :
  Forall (fun c => P c = false) cs -> count P cs = 0.
Proof.
  unfold count, total. induction 1 as [|c cs Hc _ IH]; simpl; [reflexivity|].
  rewrite Hc, IH. reflexivity.
Qed.

Lemma count_full (P : Call -> bool) cs :
  count P cs = length cs -> Forall (fun c => P c = true) cs.
Proof.
  unfold count, total. induction cs as [|c cs IH]; simpl; intros Hfull.
  - constructor.
  - pose proof (count_le_length P cs) as Hle. unfold count, total in Hle.
    destruct (P c) eqn:Hc; [|lia]. constructor; [exact Hc|]. apply IH. lia.
Qed.

Lemma occurrences_snoc (P : event -> bool) tr e :
  occurrences P (tr ++ [e]) = occurrences P tr + (if P e then 1 else 0).
Proof.
  unfold occurrences. rewrite List.filter_app, length_app. simpl.
  destruct (P e); reflexivity.
Qed.

Lemma occurrences_app (P : event -> bool) tr tr' :
  occurrences P (tr ++ tr') = occurrences P tr + occurrences P tr'.
Proof. unfold occurrences. rewrite List.filter_app, length_app. reflexivity. Qed.

Lemma appenders_app tr tr' : appenders (tr ++ tr') = appenders tr ++ appenders tr'.
Proof.
  induction tr as [|e tr IH]; simpl; [reflexivity|].
  destruct e; simpl; rewrite IH; reflexivity.
Qed.

Lemma collected_app requests tr tr' :
  collected deserialize_model requests (tr ++ tr')
  = collected deserialize_model requests tr
    ++ collected deserialize_model requests tr'.
Proof. unfold collected. rewrite appenders_app, omap_app. reflexivity. Qed.

Lemma collected_silent requests tr e :
  appenders [e] = [] ->
  collected deserialize_model requests (tr ++ [e])
  = collected deserialize_model requests tr.
Proof.
  intros He. rewrite collected_app. unfold collected at 2. rewrite He.
  apply app_nil_r.
Qed.

Lemma wake_request_of c : request_of (wake c) = request_of c.
Proof. unfold wake. destruct (at_pc c); reflexivity. Qed.

Lemma wake_appended c : appended (wake c) = appended c.
Proof. unfold wake, appended. destruct (at_pc c) eqn:E; simpl; rewrite ?E; reflexivity. Qed.

Lemma wake_aggregated c : aggregated (wake c) = aggregated c.
Proof. unfold wake, aggregated. destruct (at_pc c) eqn:E; simpl; rewrite ?E; reflexivity. Qed.

Lemma wake_returned c : returned (wake c) = returned c.
Proof. unfold wake, returned. destruct (at_pc c) eqn:E; simpl; rewrite ?E; reflexivity. Qed.

Lemma wake_distance c : distance (at_pc (wake c)) <= distance (at_pc c).
Proof. unfold wake. destruct (at_pc c) eqn:E; simpl; rewrite ?E; simpl; lia. Qed.

Lemma requests_insert cs i c p :
  cs !! i = Some c ->
  map request_of (<[i := move c p]> cs) = map request_of cs.
Proof.
  intros Hc. change (request_of <$> <[i := move c p]> cs = request_of <$> cs).
  rewrite list_fmap_insert. apply list_insert_id.
  rewrite list_lookup_fmap, Hc. reflexivity.
Qed.

Lemma requests_notify_all cs :
  map request_of (notify_all cs) = map request_of cs.
Proof.
  unfold notify_all. rewrite map_map. apply map_ext. apply wake_request_of.
Qed.

Lemma requests_lookup requests cs i c :
  map request_of cs = requests -> cs !! i = Some c ->
  requests !! i = Some (request_of c).
Proof.
  intros <- Hc. change ((request_of <$> cs) !! i = Some (request_of c)).
  rewrite list_lookup_fmap, Hc. reflexivity.
Qed.

End RoundFacts.

Section RoundInvariant.
Context {T : Type} `{Tensor T} {bytes : Type}.
Context (deserialize_model : bytes -> dict T).
Context (clock : nat -> float).
Context (s0 : @Servicer T) (requests : list (string * bytes)).
Implicit Types (cs : list (@Call bytes)) (c : @Call bytes) (w : @World T bytes).
Implicit Types (tr : list event) (e : event) (i : nat).

Lemma count_moved (P : Call -> bool) cs i c p a b :
  cs !! i = Some c ->
  (if P c then 1 else 0) = a ->
  (if P (move c p) then 1 else 0) = b ->
  count P (<[i := move c p]> cs) + a = count P cs + b.
Proof. intros Hc <- <-. apply count_insert, Hc. Qed.

Lemma distance_moved cs i c p a :
  cs !! i = Some c ->
  distance (at_pc c) = a ->
  total (fun c => distance (at_pc c)) (<[i := move c p]> cs) + a
  = total (fun c => distance (at_pc c)) cs + distance p.
Proof.
  intros Hc <-.
  exact (total_insert (fun c => distance (at_pc c)) _ _ _ (move c p) Hc).
Qed.

Lemma lookup_moved cs i c p j :
  cs !! i = Some c ->
  <[i := move c p]> cs !! j = if decide (j = i) then Some (move c p) else cs !! j.
Proof.
  intros Hc. destruct (decide (j = i)) as [->|Hne].
  - apply list_lookup_insert_eq. eapply lookup_lt_Some, Hc.
  - apply list_lookup_insert_ne. congruence.
Qed.

Lemma inv_length tr w :
  round_inv deserialize_model s0 requests tr w ->
  length (calls w) = length requests.
Proof. intros Hinv. rewrite <- (inv_requests _ _ _ _ _ Hinv). symmetry. apply length_map. Qed.

(** The appenders are unchanged by a move between two places that are
    both before, or both after, the append. *)
Lemma who_moved (L : list nat) cs i c p :
  cs !! i = Some c ->
  appended (move c p) = appended c ->
  (forall j, j ∈ L <-> exists c', cs !! j = Some c' /\ appended c' = true) ->
  forall j, j ∈ L <->
            exists c', <[i := move c p]> cs !! j = Some c' /\ appended c' = true.
Proof.
  intros Hc Hsame Hwho j. rewrite (Hwho j), (lookup_moved _ _ _ _ _ Hc).
  destruct (decide (j = i)) as [->|Hne]; [|reflexivity].
  split; intros (c' & Hc' & Happ).
  - exists (move c p). split; [reflexivity|]. rewrite Hsame. congruence.
  - exists c. split; [exact Hc|]. injection Hc' as <-. rewrite <- Hsame. exact Happ.
Qed.

Lemma who_notify_all (L : list nat) cs :
  (forall j, j ∈ L <-> exists c', cs !! j = Some c' /\ appended c' = true) ->
  forall j, j ∈ L <->
            exists c', notify_all cs !! j = Some c' /\ appended c' = true.
Proof.
  intros Hwho j. rewrite (Hwho j). unfold notify_all.
  change (map wake cs) with (wake <$> cs). rewrite list_lookup_fmap.
  destruct (cs !! j) as [c0|]; simpl.
  - split; intros (c' & [= <-] & Happ).
    + exists (wake c0). rewrite wake_appended. auto.
    + exists c0. rewrite wake_appended in Happ. auto.
  - split; intros (c' & ? & _); discriminate.
Qed.

Lemma registered_insert (ids : gmap string UserInfo) user_id user_info k :
  is_Some (ids !! k) -> is_Some (<[user_id := user_info]> ids !! k).
Proof.
  intros Hk. destruct (decide (user_id = k)) as [->|Hne].
  - rewrite lookup_insert_eq. eauto.
  - rewrite lookup_insert_ne by exact Hne. exact Hk.
Qed.

(** A step that is no append leaves the appenders and the collection. *)
Ltac silent :=
  rewrite ?occurrences_snoc, ?appenders_app, ?app_nil_r;
  rewrite ?collected_silent by reflexivity;
  cbn [appenders is_aggregate is_publish is_return is_notify app];
  rewrite ?app_nil_r, ?Nat.add_0_r.

Lemma inv_heartbeat tr w i c :
  round_inv deserialize_model s0 requests tr w ->
  calls w !! i = Some c -> at_pc c = AtHeartbeat ->
  exists s',
    heartbeat (request_id c) (clock i) (servicer w) = inr s' /\
    round_inv deserialize_model s0 requests (tr ++ [EvHeartbeat i])
      {| servicer := s'; calls := <[i := move c AtAppend]> (calls w) |}.
Proof.
  intros Hinv Hc Hpc.
  pose proof (inv_length _ _ Hinv) as Hlen.
  destruct Hinv as [Hreq Htgt Hreg Happ Hwho Honce Hnum Hpcs Hcoll Hpub
                    Haggs Hpubs Hrets Hnots Hprog].
  pose proof (Forall_lookup_1 _ _ _ _ Hreg Hc) as [u Hu].
  exists (set_user_ids (<[request_id c := set_last_active (clock i) u]>
                          (user_ids (servicer w))) (servicer w)).
  split; [unfold heartbeat; rewrite Hu; reflexivity|].
  assert (Hk : count appended (<[i := move c AtAppend]> (calls w))
               = count appended (calls w)).
  { pose proof (count_moved appended _ _ _ AtAppend _ _ Hc
                  ltac:(unfold appended; rewrite Hpc; reflexivity) eq_refl).
    simpl in *. lia. }
  assert (Hg : count aggregated (<[i := move c AtAppend]> (calls w))
               = count aggregated (calls w)).
  { pose proof (count_moved aggregated _ _ _ AtAppend _ _ Hc
                  ltac:(unfold aggregated; rewrite Hpc; reflexivity) eq_refl).
    simpl in *. lia. }
  assert (Hr : count returned (<[i := move c AtAppend]> (calls w))
               = count returned (calls w)).
  { pose proof (count_moved returned _ _ _ AtAppend _ _ Hc
                  ltac:(unfold returned; rewrite Hpc; reflexivity) eq_refl).
    simpl in *. lia. }
  pose proof (distance_moved _ _ _ AtAppend _ Hc ltac:(rewrite Hpc; reflexivity))
    as Hd.
  split; cbn [servicer calls]; rewrite ?Hk, ?Hg, ?Hr; silent;
    cbn [user_ids set_user_ids target_clients num_clients local_averages state_dict].
  - rewrite requests_insert by exact Hc. exact Hreq.
  - exact Htgt.
  - apply Forall_insert.
    + eapply Forall_impl; [exact Hreg|]. intros c' Hc'. apply registered_insert, Hc'.
    + apply registered_insert. cbn [request_id move]. rewrite Hu. eauto.
  - exact Happ.
  - apply who_moved; [exact Hc | | exact Hwho].
    unfold appended. rewrite Hpc. reflexivity.
  - exact Honce.
  - exact Hnum.
  - apply Forall_insert; [exact Hpcs | exact I].
  - exact Hcoll.
  - exact Hpub.
  - exact Haggs.
  - exact Hpubs.
  - exact Hrets.
  - exact Hnots.
  - rewrite length_app. unfold remaining in *. cbn [calls length distance] in *. lia.
Qed.

(** How a move of thread [i] from the place [Hpc] names to [p] changes
    the counts and the distance left. *)
Ltac tally Hc Hpc p :=
  let Hk := fresh "Hk" in
  let Hg := fresh "Hg" in
  let Hr := fresh "Hr" in
  let Hd := fresh "Hd" in
  pose proof (count_moved appended _ _ _ p _ _ Hc
                ltac:(unfold appended; rewrite Hpc; reflexivity) eq_refl) as Hk;
  pose proof (count_moved aggregated _ _ _ p _ _ Hc
                ltac:(unfold aggregated; rewrite Hpc; reflexivity) eq_refl) as Hg;
  pose proof (count_moved returned _ _ _ p _ _ Hc
                ltac:(unfold returned; rewrite Hpc; reflexivity) eq_refl) as Hr;
  pose proof (distance_moved _ _ _ p _ Hc ltac:(rewrite Hpc; reflexivity)) as Hd;
  simpl in Hk, Hg, Hr, Hd.

Lemma inv_return tr w i c :
  round_inv deserialize_model s0 requests tr w ->
  calls w !! i = Some c -> at_pc c = AtReturn ->
  round_inv deserialize_model s0 requests (tr ++ [EvReturn i])
    {| servicer := servicer w; calls := <[i := move c Returned]> (calls w) |}.
Proof.
  intros Hinv Hc Hpc.
  destruct Hinv as [Hreq Htgt Hreg Happ Hwho Honce Hnum Hpcs Hcoll Hpub
                    Haggs Hpubs Hrets Hnots Hprog].
  tally Hc Hpc Returned.
  assert (Hk' : count appended (<[i := move c Returned]> (calls w))
                = count appended (calls w)) by lia.
  assert (Hg' : count aggregated (<[i := move c Returned]> (calls w))
                = count aggregated (calls w)) by lia.
  assert (Hr' : count returned (<[i := move c Returned]> (calls w))
                = count returned (calls w) + 1) by lia.
  pose proof (Forall_lookup_1 _ _ _ _ Hpcs Hc) as Hok. cbv beta in Hok.
  rewrite Hpc in Hok.
  split; cbn [servicer calls]; rewrite ?Hk', ?Hg', ?Hr'; silent.
  - rewrite requests_insert by exact Hc. exact Hreq.
  - exact Htgt.
  - apply Forall_insert; [exact Hreg|]. apply (Forall_lookup_1 _ _ _ _ Hreg Hc).
  - exact Happ.
  - apply who_moved; [exact Hc | | exact Hwho].
    unfold appended. rewrite Hpc. reflexivity.
  - exact Honce.
  - exact Hnum.
  - apply Forall_insert; [exact Hpcs | exact Hok].
  - exact Hcoll.
  - exact Hpub.
  - exact Haggs.
  - exact Hpubs.
  - rewrite Hrets. reflexivity.
  - exact Hnots.
  - rewrite length_app. unfold remaining in *. cbn [calls length] in *. lia.
Qed.

Lemma inv_barrier tr w i c :
  round_inv deserialize_model s0 requests tr w ->
  calls w !! i = Some c -> at_pc c = AtBarrier \/ at_pc c = Notified ->
  exists b : bool,
    below_target (servicer w) = inr b /\
    round_inv deserialize_model s0 requests
      (tr ++ [if b then EvWait i else EvPass i])
      {| servicer := servicer w;
         calls := <[i := move c (if b then Waiting else AtAggregate)]> (calls w) |}.
Proof.
  intros Hinv Hc Hpc.
  pose proof (inv_length _ _ Hinv) as Hlen.
  destruct Hinv as [Hreq Htgt Hreg Happ Hwho Honce Hnum Hpcs Hcoll Hpub
                    Haggs Hpubs Hrets Hnots Hprog].
  assert (Happended : appended c = true)
    by (unfold appended; destruct Hpc as [-> | ->]; reflexivity).
  pose proof (count_pos _ _ _ _ Hc Happended) as Hpos.
  pose proof (count_le_length appended (calls w)) as Hle.
  pose proof (Forall_lookup_1 _ _ _ _ Hpcs Hc) as Hok. cbv beta in Hok.
  exists (count appended (calls w) <? length requests).
  split; [unfold below_target; rewrite (Hnum Hpos), Htgt; reflexivity|].
  set (p := if count appended (calls w) <? length requests
            then Waiting else AtAggregate).
  assert (Hsilent : appenders [if count appended (calls w) <? length requests
                               then EvWait i else EvPass i] = [])
    by (destruct (count appended (calls w) <? length requests); reflexivity).
  assert (Hcounts :
    count appended (<[i := move c p]> (calls w)) = count appended (calls w) /\
    count aggregated (<[i := move c p]> (calls w)) = count aggregated (calls w) /\
    count returned (<[i := move c p]> (calls w)) = count returned (calls w) /\
    total (fun c => distance (at_pc c)) (<[i := move c p]> (calls w)) + 1
      <= total (fun c => distance (at_pc c)) (calls w)).
  { subst p. destruct (Nat.ltb_spec (count appended (calls w)) (length requests));
      destruct Hpc as [Hpc|Hpc]; rewrite Hpc in Hok; simpl in Hok;
      match goal with |- context [move c ?q] => tally Hc Hpc q end; lia. }
  destruct Hcounts as (Hk' & Hg' & Hr' & Hd').
  assert (Hp : pc_ok (count appended (calls w)) (length requests) p).
  { subst p. destruct (Nat.ltb_spec (count appended (calls w)) (length requests));
      simpl; lia. }
  split; cbn [servicer calls]; rewrite ?Hk', ?Hg', ?Hr';
    rewrite ?occurrences_snoc, ?appenders_app, ?Hsilent, ?app_nil_r;
    rewrite ?collected_silent by exact Hsilent.
  - rewrite requests_insert by exact Hc. exact Hreq.
  - exact Htgt.
  - apply Forall_insert; [exact Hreg|]. apply (Forall_lookup_1 _ _ _ _ Hreg Hc).
  - exact Happ.
  - apply who_moved; [exact Hc | | exact Hwho].
    rewrite Happended. subst p.
    destruct (count appended (calls w) <? length requests); reflexivity.
  - exact Honce.
  - exact Hnum.
  - apply Forall_insert; [exact Hpcs | exact Hp].
  - exact Hcoll.
  - exact Hpub.
  - rewrite Haggs.
    destruct (count appended (calls w) <? length requests); simpl; lia.
  - rewrite Hpubs.
    destruct (count appended (calls w) <? length requests); simpl; lia.
  - rewrite Hrets.
    destruct (count appended (calls w) <? length requests); simpl; lia.
  - rewrite Hnots.
    destruct (count appended (calls w) <? length requests); simpl; lia.
  - rewrite length_app. unfold remaining in *. cbn [calls length] in *. lia.
Qed.

Lemma aggregate_and_reset_fields (s : @Servicer T) :
  target_clients (aggregate_and_reset s) = target_clients s /\
  num_clients (aggregate_and_reset s) = num_clients s /\
  local_averages (aggregate_and_reset s) = [] /\
  state_dict (aggregate_and_reset s)
    = (if holds_models s then Some (global_average (local_averages s))
       else state_dict s).
Proof.
  unfold aggregate_and_reset, _compute_global_average, holds_models.
  destruct (local_averages s); auto.
Qed.

Lemma collected_length tr :
  (forall j, j ∈ appenders tr -> is_Some (requests !! j)) ->
  length (collected deserialize_model requests tr) = length (appenders tr).
Proof.
  unfold collected. induction (appenders tr) as [|j L IH]; intros Hin.
  - reflexivity.
  - cbn [omap list_omap]. destruct (Hin j) as [r Hr]; [apply list_elem_of_here|].
    rewrite Hr. cbn [fmap option_fmap option_map length]. f_equal.
    apply IH. intros j' Hj'. apply Hin, list_elem_of_further, Hj'.
Qed.

Lemma inv_collected_length tr w :
  round_inv deserialize_model s0 requests tr w ->
  length (collected deserialize_model requests tr) = count appended (calls w).
Proof.
  intros Hinv. rewrite <- (inv_appenders _ _ _ _ _ Hinv). apply collected_length.
  intros j Hj. apply (inv_appenders_who _ _ _ _ _ Hinv) in Hj as (c & Hc & _).
  rewrite (requests_lookup _ _ _ _ (inv_requests _ _ _ _ _ Hinv) Hc). eauto.
Qed.

Lemma inv_aggregate tr w i c :
  round_inv deserialize_model s0 requests tr w ->
  calls w !! i = Some c -> at_pc c = AtAggregate ->
  round_inv deserialize_model s0 requests
    (tr ++ [EvAggregate i (holds_models (servicer w))])
    {| servicer := aggregate_and_reset (servicer w);
       calls := <[i := move c AtReturn]> (calls w) |}.
Proof.
  intros Hinv Hc Hpc.
  pose proof (inv_length _ _ Hinv) as Hlen.
  pose proof (inv_collected_length _ _ Hinv) as Hcl.
  destruct Hinv as [Hreq Htgt Hreg Happ Hwho Honce Hnum Hpcs Hcoll Hpub
                    Haggs Hpubs Hrets Hnots Hprog].
  tally Hc Hpc AtReturn.
  assert (Hk' : count appended (<[i := move c AtReturn]> (calls w))
                = count appended (calls w)) by lia.
  assert (Hg' : count aggregated (<[i := move c AtReturn]> (calls w))
                = count aggregated (calls w) + 1) by lia.
  assert (Hr' : count returned (<[i := move c AtReturn]> (calls w))
                = count returned (calls w)) by lia.
  pose proof (Forall_lookup_1 _ _ _ _ Hpcs Hc) as Hok. cbv beta in Hok.
  rewrite Hpc in Hok. simpl in Hok.
  pose proof (lookup_lt_Some _ _ _ Hc) as Hi.
  assert (Hhm : holds_models (servicer w) = (count aggregated (calls w) =? 0)).
  { unfold holds_models. destruct (Nat.eqb_spec (count aggregated (calls w)) 0) as [E|E].
    - destruct (Hcoll E) as [-> _].
      destruct (collected deserialize_model requests tr); [simpl in Hcl; lia|reflexivity].
    - destruct (Hpub ltac:(lia)) as [-> _]. reflexivity. }
  destruct (aggregate_and_reset_fields (servicer w)) as (Ht & Hn & Hla & Hsd).
  split; cbn [servicer calls];
    rewrite ?Hk', ?Hg', ?Hr', ?Ht, ?Hn, ?Hla, ?aggregate_and_reset_user_ids; silent.
  - rewrite requests_insert by exact Hc. exact Hreq.
  - exact Htgt.
  - apply Forall_insert; [exact Hreg|]. apply (Forall_lookup_1 _ _ _ _ Hreg Hc).
  - exact Happ.
  - apply who_moved; [exact Hc | | exact Hwho].
    unfold appended at 2. rewrite Hpc. reflexivity.
  - exact Honce.
  - exact Hnum.
  - apply Forall_insert; [exact Hpcs | exact Hok].
  - intros. lia.
  - intros _. split; [reflexivity|]. rewrite Hsd, Hhm.
    destruct (Nat.eqb_spec (count aggregated (calls w)) 0) as [E|E].
    + destruct (Hcoll E) as [-> _]. reflexivity.
    + apply (Hpub ltac:(lia)).
  - rewrite Haggs. reflexivity.
  - rewrite Hpubs, Hhm.
    destruct (Nat.eqb_spec (count aggregated (calls w)) 0) as [E|E];
      destruct (Nat.eqb_spec (count aggregated (calls w) + 1) 0); simpl; lia.
  - exact Hrets.
  - exact Hnots.
  - rewrite length_app. unfold remaining in *. cbn [calls length] in *. lia.
Qed.

Lemma pc_ok_quiet k n c :
  pc_ok k n (at_pc c) -> k < n -> aggregated c = false.
Proof. unfold aggregated. destruct (at_pc c); simpl; intros; first [reflexivity | lia]. Qed.

Lemma pc_ok_woken k n c :
  pc_ok k n (at_pc c) -> k < n -> k + 1 = n -> pc_ok (k + 1) n (at_pc (wake c)).
Proof.
  unfold wake. destruct (at_pc c) eqn:E; simpl; rewrite ?E; simpl; intros;
    first [exact I | lia | contradiction].
Qed.

Lemma pc_ok_more k n c :
  pc_ok k n (at_pc c) -> k + 1 < n -> pc_ok (k + 1) n (at_pc c).
Proof. destruct (at_pc c); simpl; intros; first [exact I | lia | contradiction]. Qed.

Lemma collected_append tr i b c :
  requests !! i = Some (request_of c) ->
  collected deserialize_model requests (tr ++ [EvAppend i b])
  = collected deserialize_model requests tr ++ [deserialize_model (request_buffer c)].
Proof.
  intros Hi. rewrite collected_app. f_equal. unfold collected. simpl.
  rewrite Hi. reflexivity.
Qed.

Lemma inv_append tr w i c :
  round_inv deserialize_model s0 requests tr w ->
  calls w !! i = Some c -> at_pc c = AtAppend ->
  let su := append_update deserialize_model (request_buffer c) (servicer w) in
  round_inv deserialize_model s0 requests (tr ++ [EvAppend i (snd su)])
    {| servicer := fst su;
       calls := if snd su
                then notify_all (<[i := move c AtBarrier]> (calls w))
                else <[i := move c AtBarrier]> (calls w) |}.
Proof.
  intros Hinv Hc Hpc.
  pose proof (inv_length _ _ Hinv) as Hlen.
  pose proof (inv_collected_length _ _ Hinv) as Hcl.
  destruct Hinv as [Hreq Htgt Hreg Happ Hwho Honce Hnum Hpcs Hcoll Hpub
                    Haggs Hpubs Hrets Hnots Hprog].
  assert (Hnot : appended c = false) by (unfold appended; rewrite Hpc; reflexivity).
  pose proof (count_lt_length _ _ _ _ Hc Hnot) as Hlt. rewrite Hlen in Hlt.
  assert (Hg0 : count aggregated (calls w) = 0).
  { apply count_zero. eapply Forall_impl; [exact Hpcs|].
    intros c' Hc'. eapply pc_ok_quiet; [exact Hc' | exact Hlt]. }
  destruct (Hcoll Hg0) as [Hla Hsd].
  pose proof (requests_lookup _ _ _ _ Hreq Hc) as Hri.
  tally Hc Hpc AtBarrier.
  cbn zeta. unfold append_update. cbn [fst snd].
  rewrite Htgt, Hla, length_app, Hcl. cbn [length].
  set (k := count appended (calls w)) in *.
  set (n := length requests) in *.
  set (cs1 := <[i := move c AtBarrier]> (calls w)) in *.
  set (b := n <=? k + 1).
  set (cs' := if b then notify_all cs1 else cs1).
  assert (Hb : b = true /\ k + 1 = n \/ b = false /\ k + 1 < n).
  { subst b. destruct (Nat.leb_spec n (k + 1)); [left | right]; split; auto; lia. }
  assert (Hk' : count appended cs' = k + 1).
  { subst cs'. destruct b; rewrite ?count_notify_all by apply wake_appended; lia. }
  assert (Hg' : count aggregated cs' = 0).
  { subst cs'. destruct b; rewrite ?count_notify_all by apply wake_aggregated; lia. }
  assert (Hr' : count returned cs' = count returned (calls w)).
  { subst cs'. destruct b; rewrite ?count_notify_all by apply wake_returned; lia. }
  assert (Hd' : total (fun c => distance (at_pc c)) cs' + 1
                <= total (fun c => distance (at_pc c)) (calls w)).
  { subst cs'. destruct b; [|lia].
    pose proof (total_notify_all_le (fun c => distance (at_pc c)) cs1 wake_distance).
    lia. }
  assert (F1 : map request_of cs' = requests).
  { subst cs' cs1. destruct b; rewrite ?requests_notify_all;
      rewrite requests_insert by exact Hc; exact Hreq. }
  assert (Hreg1 : Forall (fun c => is_Some (user_ids (servicer w) !! request_id c)) cs1).
  { apply Forall_insert; [exact Hreg|]. apply (Forall_lookup_1 _ _ _ _ Hreg Hc). }
  assert (F3 : Forall (fun c => is_Some (user_ids (servicer w) !! request_id c)) cs').
  { subst cs'. destruct b; [|exact Hreg1]. unfold notify_all.
    change (map wake cs1) with (wake <$> cs1). apply Forall_fmap.
    eapply Forall_impl; [exact Hreg1|]. intros c' Hc'. cbv beta. unfold compose.
    replace (request_id (wake c')) with (request_id c'); [exact Hc'|].
    unfold wake. destruct (at_pc c'); reflexivity. }
  assert (Hwho1 : forall j, j ∈ appenders tr ++ [i] <->
                            exists c', cs1 !! j = Some c' /\ appended c' = true).
  { intros j. subst cs1. rewrite elem_of_app, list_elem_of_singleton, Hwho.
    rewrite (lookup_moved _ _ _ _ _ Hc). destruct (decide (j = i)) as [->|Hne].
    - split; [|auto]. intros _. exists (move c AtBarrier). auto.
    - split; [intros [Hj|Hj]; [exact Hj | contradiction] | auto]. }
  assert (F5 : forall j, j ∈ appenders tr ++ [i] <->
                         exists c', cs' !! j = Some c' /\ appended c' = true).
  { subst cs'. destruct b; [apply who_notify_all|]; exact Hwho1. }
  assert (F6 : NoDup (appenders tr ++ [i])).
  { apply NoDup_app. split; [exact Honce|]. split; [|apply NoDup_singleton].
    intros j Hj Hji. apply list_elem_of_singleton in Hji. subst j.
    apply Hwho in Hj as (c' & Hc' & Happ'). congruence. }
  assert (F8 : Forall (fun c => pc_ok (k + 1) n (at_pc c)) cs').
  { subst cs'. destruct Hb as [[-> Hkn]|[-> Hkn]].
    - unfold notify_all. change (map wake cs1) with (wake <$> cs1).
      apply Forall_fmap. subst cs1. apply Forall_insert.
      + eapply Forall_impl; [exact Hpcs|]. intros c' Hc'.
        apply pc_ok_woken; [exact Hc' | exact Hlt | exact Hkn].
      + exact I.
    - subst cs1. apply Forall_insert; [|exact I].
      eapply Forall_impl; [exact Hpcs|]. intros c' Hc'.
      apply pc_ok_more; [exact Hc' | exact Hkn]. }
  assert (F14 : (if b then 1 else 0)
                = if (k + 1 =? n) && (0 <? n) then 1 else 0).
  { destruct Hb as [[-> Hkn]|[-> Hkn]];
      destruct (Nat.eqb_spec (k + 1) n); destruct (Nat.ltb_spec 0 n);
      simpl; lia. }
  assert (Hnots0 : occurrences is_notify tr = 0).
  { rewrite Hnots. destruct (Nat.eqb_spec k n); [lia | reflexivity]. }
  clearbody cs' b.
  split; cbn [servicer calls]; rewrite ?Hk', ?Hg', ?Hr';
    rewrite ?occurrences_snoc, ?appenders_app;
    cbn [appenders is_aggregate is_publish is_return is_notify
         user_ids target_clients num_clients local_averages state_dict
         set_num_clients set_local_averages];
    rewrite ?Nat.add_0_r.
  - exact F1.
  - exact Htgt.
  - exact F3.
  - rewrite length_app, Happ. reflexivity.
  - exact F5.
  - exact F6.
  - intros _. reflexivity.
  - exact F8.
  - intros _. split; [|exact Hsd].
    rewrite (collected_append _ _ _ _ Hri). reflexivity.
  - intros Hpos. lia.
  - rewrite Haggs. exact Hg0.
  - rewrite Hpubs, Hg0. reflexivity.
  - exact Hrets.
  - rewrite Hnots0. destruct b; exact F14.
  - rewrite length_app. unfold remaining in *. cbn [calls length] in *. lia.
Qed.

Lemma inv_holds_models tr w i c :
  round_inv deserialize_model s0 requests tr w ->
  calls w !! i = Some c -> at_pc c = AtAggregate ->
  holds_models (servicer w) = (count aggregated (calls w) =? 0).
Proof.
  intros Hinv Hc Hpc.
  pose proof (inv_length _ _ Hinv) as Hlen.
  pose proof (inv_collected_length _ _ Hinv) as Hcl.
  pose proof (Forall_lookup_1 _ _ _ _ (inv_pc _ _ _ _ _ Hinv) Hc) as Hok.
  cbv beta in Hok. rewrite Hpc in Hok. simpl in Hok.
  pose proof (lookup_lt_Some _ _ _ Hc) as Hi.
  unfold holds_models. destruct (Nat.eqb_spec (count aggregated (calls w)) 0) as [E|E].
  - destruct (inv_collecting _ _ _ _ _ Hinv E) as [-> _].
    destruct (collected deserialize_model requests tr); [simpl in Hcl; lia|reflexivity].
  - destruct (inv_published _ _ _ _ _ Hinv ltac:(lia)) as [-> _]. reflexivity.
Qed.

Lemma total_start (f : Call -> nat) (a : nat) :
  (forall r, f {| request_id := fst r; request_buffer := snd r;
                  at_pc := AtHeartbeat |} = a) ->
  total f (calls (round_start s0 requests)) = a * length requests.
Proof.
  intros Hf. unfold total, round_start. cbn [calls].
  induction requests as [|r rs IH]; simpl; [lia|]. rewrite Hf, IH. lia.
Qed.

Lemma requests_start :
  map request_of (calls (round_start s0 requests)) = requests.
Proof.
  unfold round_start. cbn [calls].
  induction requests as [|[user_id buffer] rs IH]; simpl; [reflexivity|].
  f_equal. exact IH.
Qed.

Lemma inv_start :
  round_ready s0 requests ->
  round_inv deserialize_model s0 requests [] (round_start s0 requests).
Proof.
  intros (Hla & Htgt & Hreg).
  assert (Hk : count appended (calls (round_start s0 requests)) = 0)
    by (unfold count; rewrite (total_start _ 0); [lia | reflexivity]).
  assert (Hg : count aggregated (calls (round_start s0 requests)) = 0)
    by (unfold count; rewrite (total_start _ 0); [lia | reflexivity]).
  assert (Hr : count returned (calls (round_start s0 requests)) = 0)
    by (unfold count; rewrite (total_start _ 0); [lia | reflexivity]).
  assert (Hpcs : Forall (fun c => at_pc c = AtHeartbeat)
                        (calls (round_start s0 requests))).
  { unfold round_start. cbn [calls]. apply Forall_forall. intros c Hc.
    apply list_elem_of_In, in_map_iff in Hc as (r & <- & _). reflexivity. }
  split; rewrite ?Hk, ?Hg, ?Hr; cbn [servicer round_start appenders length].
  - apply requests_start.
  - exact Htgt.
  - cbn [calls]. clear -Hreg. induction Hreg; simpl; constructor; auto.
  - reflexivity.
  - intros j. split; [intros Hj; inversion Hj|].
    intros (c & Hc & Happ).
    pose proof (Forall_lookup_1 _ _ _ _ Hpcs Hc) as Hpc. cbv beta in Hpc.
    unfold appended in Happ. rewrite Hpc in Happ. discriminate Happ.
  - constructor.
  - intros Hpos. lia.
  - eapply Forall_impl; [exact Hpcs|]. intros c ->. exact I.
  - intros _. split; [exact Hla | reflexivity].
  - intros Hpos. lia.
  - reflexivity.
  - reflexivity.
  - reflexivity.
  - unfold occurrences. cbn [List.filter length].
    destruct (length requests); reflexivity.
  - unfold remaining. rewrite (total_start _ 7); [simpl; lia | reflexivity].
Qed.

Lemma step_preserves tr w i e w' :
  round_inv deserialize_model s0 requests tr w ->
  step deserialize_model clock i w = Some (e, w') ->
  round_inv deserialize_model s0 requests (tr ++ [e]) w'.
Proof.
  intros Hinv. unfold step. destruct (calls w !! i) as [c|] eqn:Hc; [|discriminate].
  destruct (at_pc c) eqn:Hpc.
  - destruct (inv_heartbeat _ _ _ _ Hinv Hc Hpc) as (s' & -> & Hinv').
    intros [= <- <-]. exact Hinv'.
  - pose proof (inv_append _ _ _ _ Hinv Hc Hpc) as Hinv'. cbn zeta in Hinv'.
    destruct (append_update deserialize_model (request_buffer c) (servicer w))
      as [s' notified].
    intros [= <- <-]. exact Hinv'.
  - destruct (inv_barrier _ _ _ _ Hinv Hc (or_introl Hpc)) as (b & -> & Hinv').
    destruct b; intros [= <- <-]; exact Hinv'.
  - discriminate.
  - destruct (inv_barrier _ _ _ _ Hinv Hc (or_intror Hpc)) as (b & -> & Hinv').
    destruct b; intros [= <- <-]; exact Hinv'.
  - intros [= <- <-]. apply inv_aggregate; assumption.
  - intros [= <- <-]. apply inv_return; assumption.
  - discriminate.
  - discriminate.
Qed.

Lemma reach_inv tr w :
  round_ready s0 requests ->
  reach deserialize_model clock (round_start s0 requests) tr w ->
  round_inv deserialize_model s0 requests tr w.
Proof.
  intros Hready Hreach. induction Hreach as [|tr w i e w' _ IH Hstep].
  - apply inv_start, Hready.
  - eapply step_preserves; eauto.
Qed.

Lemma reach_split w0 tr w pre e post :
  reach deserialize_model clock w0 tr w ->
  tr = pre ++ e :: post ->
  exists w1 w2 i,
    reach deserialize_model clock w0 pre w1 /\
    step deserialize_model clock i w1 = Some (e, w2).
Proof.
  intros Hreach. revert pre e post.
  induction Hreach as [|tr w i e0 w' Hreach IH Hstep]; intros pre e post Heq.
  - destruct pre; discriminate Heq.
  - destruct post as [|x l _] using rev_ind.
    + apply app_inj_tail in Heq as [-> ->]. eauto.
    + rewrite app_comm_cons, app_assoc in Heq.
      apply app_inj_tail in Heq as [-> _]. eapply IH. reflexivity.
Qed.

Lemma reach_cons w0 i e w1 tr w :
  step deserialize_model clock i w0 = Some (e, w1) ->
  reach deserialize_model clock w1 tr w ->
  reach deserialize_model clock w0 (e :: tr) w.
Proof.
  intros Hstep Hreach. induction Hreach as [|tr w j e' w' _ IH Hstep'].
  - apply (reach_step _ _ _ [] w0 i e w1); [constructor | exact Hstep].
  - rewrite app_comm_cons. eapply reach_step; eauto.
Qed.

Lemma execute_reach schedule : forall w0,
  reach deserialize_model clock w0
        (fst (execute deserialize_model clock schedule w0))
        (snd (execute deserialize_model clock schedule w0)).
Proof.
  induction schedule as [|i schedule IH]; intros w0; cbn [execute].
  - constructor.
  - destruct (step deserialize_model clock i w0) as [[e w1]|] eqn:Hstep;
      [|constructor].
    specialize (IH w1).
    destruct (execute deserialize_model clock schedule w1) as [tr w2].
    eapply reach_cons; eauto.
Qed.

(** Which thread an event belongs to, and where that thread stood. *)
Lemma step_event i w e w' :
  step deserialize_model clock i w = Some (e, w') ->
  exists c,
    calls w !! i = Some c /\
    match e with
    | EvHeartbeat j => j = i /\ at_pc c = AtHeartbeat
    | EvAppend j b =>
        j = i /\ at_pc c = AtAppend /\
        b = snd (append_update deserialize_model (request_buffer c) (servicer w))
    | EvWait j | EvPass j => j = i /\ (at_pc c = AtBarrier \/ at_pc c = Notified)
    | EvAggregate j b =>
        j = i /\ at_pc c = AtAggregate /\ b = holds_models (servicer w)
    | EvReturn j => j = i /\ at_pc c = AtReturn
    | EvRaise j _ => j = i
    end.
Proof.
  unfold step. destruct (calls w !! i) as [c|]; [|discriminate].
  intros Hstep. exists c. split; [reflexivity|].
  destruct (at_pc c); try discriminate.
  - destruct (heartbeat (request_id c) (clock i) (servicer w));
      injection Hstep as <- _; auto.
  - destruct (append_update deserialize_model (request_buffer c) (servicer w)).
    injection Hstep as <- _. auto.
  - destruct (below_target (servicer w)) as [|[|]]; injection Hstep as <- _; auto.
  - destruct (below_target (servicer w)) as [|[|]]; injection Hstep as <- _; auto.
  - injection Hstep as <- _. auto.
  - injection Hstep as <- _. auto.
Qed.

Lemma step_enabled i w c :
  calls w !! i = Some c ->
  at_pc c <> Waiting -> at_pc c <> Returned -> (forall x, at_pc c <> Raised x) ->
  exists e w', step deserialize_model clock i w = Some (e, w').
Proof.
  intros Hc Hw Hr He. unfold step. rewrite Hc.
  destruct (at_pc c) eqn:Hpc; try contradiction.
  - destruct (heartbeat (request_id c) (clock i) (servicer w)); eauto.
  - destruct (append_update deserialize_model (request_buffer c) (servicer w)). eauto.
  - destruct (below_target (servicer w)) as [|[|]]; eauto.
  - destruct (below_target (servicer w)) as [|[|]]; eauto.
  - eauto.
  - eauto.
  - exfalso. eapply He. reflexivity.
Qed.

Lemma count_short (P : Call -> bool) cs :
  count P cs < length cs -> exists i c, cs !! i = Some c /\ P c = false.
Proof.
  unfold count, total. induction cs as [|c cs IH]; simpl; [lia|].
  destruct (P c) eqn:E; intros Hlt.
  - destruct IH as (i & c' & Hc' & Hp); [lia|]. exists (S i), c'. auto.
  - exists 0, c. auto.
Qed.

(** While a call has not returned, some thread can take a step. *)
Lemma inv_enabled tr w :
  round_inv deserialize_model s0 requests tr w ->
  ~ all_returned w ->
  exists i e w', step deserialize_model clock i w = Some (e, w').
Proof.
  intros Hinv Hnot.
  pose proof (inv_length _ _ Hinv) as Hlen.
  pose proof (inv_pc _ _ _ _ _ Hinv) as Hpcs.
  assert (Hshort : count returned (calls w) < length (calls w)).
  { pose proof (count_le_length returned (calls w)) as Hle.
    destruct (decide (count returned (calls w) = length (calls w))) as [E|E]; [|lia].
    exfalso. apply Hnot. eapply Forall_impl; [apply count_full, E|].
    intros c. unfold returned. destruct (at_pc c); intros; first [reflexivity | discriminate]. }
  destruct (count_short _ _ Hshort) as (j & c & Hc & Hret).
  pose proof (Forall_lookup_1 _ _ _ _ Hpcs Hc) as Hok. cbv beta in Hok.
  assert (Hcase : at_pc c = Waiting \/
                  (at_pc c <> Waiting /\ at_pc c <> Returned /\
                   forall x, at_pc c <> Raised x)).
  { unfold returned in Hret. destruct (at_pc c); simpl in Hok;
      first [ left; reflexivity | discriminate Hret | contradiction
            | right; repeat split; intros; discriminate ]. }
  destruct Hcase as [Hw|(Hw & Hr & Hx)].
  - rewrite Hw in Hok. simpl in Hok. rewrite <- Hlen in Hok.
    destruct (count_short _ _ Hok) as (i & c' & Hc' & Happ).
    pose proof (Forall_lookup_1 _ _ _ _ Hpcs Hc') as Hok'. cbv beta in Hok'.
    exists i. apply (step_enabled _ _ _ Hc'); unfold appended in Happ;
      destruct (at_pc c'); simpl in Hok'; try discriminate; try contradiction;
      congruence.
  - exists j. apply (step_enabled _ _ _ Hc); assumption.
Qed.

Lemma omap_lookup_seq {A B : Type} (g : A -> B) (l : list A) :
  omap (fun i => g <$> l !! i) (seq 0 (length l)) = map g l.
Proof.
  assert (Hgen : forall pre,
    omap (fun i => g <$> (pre ++ l) !! i) (seq (length pre) (length l)) = map g l).
  { induction l as [|a l IH]; intros pre; [reflexivity|].
    cbn [length seq omap list_omap map]. rewrite list_lookup_middle by reflexivity.
    cbn [fmap option_fmap option_map]. f_equal.
    specialize (IH (pre ++ [a])). rewrite length_app, <- app_assoc in IH.
    cbn [length app] in IH. rewrite Nat.add_1_r in IH. exact IH. }
  exact (Hgen []).
Qed.

(** When every call has appended, the collection holds every request's
    model once. *)
Lemma collected_all tr w :
  round_inv deserialize_model s0 requests tr w ->
  count appended (calls w) = length requests ->
  collected deserialize_model requests tr
    ≡ₚ map (fun r => deserialize_model (snd r)) requests.
Proof.
  intros Hinv Hfull.
  pose proof (inv_length _ _ Hinv) as Hlen.
  assert (Hperm : appenders tr ≡ₚ seq 0 (length requests)).
  { apply NoDup_Permutation.
    - apply (inv_appenders_once _ _ _ _ _ Hinv).
    - apply NoDup_seq.
    - intros j. rewrite elem_of_seq, (inv_appenders_who _ _ _ _ _ Hinv). split.
      + intros (c & Hc & _). apply lookup_lt_Some in Hc. lia.
      + intros [_ Hj]. destruct (lookup_lt_is_Some_2 (calls w) j) as [c Hc]; [lia|].
        exists c. split; [exact Hc|].
        assert (Hall : Forall (fun c => appended c = true) (calls w))
          by (apply count_full; lia).
        apply (Forall_lookup_1 _ _ _ _ Hall Hc). }
  unfold collected. rewrite Hperm, omap_lookup_seq. reflexivity.
Qed.

Lemma count_all (P : Call -> bool) cs :
  Forall (fun c => P c = true) cs -> count P cs = length cs.
Proof.
  unfold count, total. induction 1 as [|c cs Hc _ IH]; simpl; [reflexivity|].
  rewrite Hc, IH. reflexivity.
Qed.

Lemma inv_collecting_before_full tr w :
  round_inv deserialize_model s0 requests tr w ->
  count appended (calls w) < length requests ->
  count aggregated (calls w) = 0.
Proof.
  intros Hinv Hlt. apply count_zero.
  eapply Forall_impl; [apply (inv_pc _ _ _ _ _ Hinv)|].
  intros c Hc. eapply pc_ok_quiet; [exact Hc | exact Hlt].
Qed.

(** No append follows once every call has appended. *)
Lemma appenders_done pre rest w1 w :
  round_inv deserialize_model s0 requests pre w1 ->
  round_inv deserialize_model s0 requests (pre ++ rest) w ->
  count appended (calls w1) = length requests ->
  collected deserialize_model requests (pre ++ rest)
  = collected deserialize_model requests pre.
Proof.
  intros Hinv1 Hinv Hfull.
  pose proof (inv_appenders _ _ _ _ _ Hinv1) as Ha1.
  pose proof (inv_appenders _ _ _ _ _ Hinv) as Ha.
  pose proof (count_le_length appended (calls w)) as Hle.
  rewrite (inv_length _ _ Hinv) in Hle.
  rewrite appenders_app, length_app in Ha.
  assert (Hnil : appenders rest = []) by (apply nil_length_inv; lia).
  rewrite collected_app. unfold collected at 2. rewrite Hnil. apply app_nil_r.
Qed.

(** Where a return is taken, the round's aggregate has been published,
    once, and it is the snapshot. *)
Lemma return_after_publish tr w pre i post :
  round_ready s0 requests ->
  reach deserialize_model clock (round_start s0 requests) tr w ->
  tr = pre ++ EvReturn i :: post ->
  exists w1 w2,
    reach deserialize_model clock (round_start s0 requests) pre w1 /\
    step deserialize_model clock i w1 = Some (EvReturn i, w2) /\
    occurrences is_publish pre = 1 /\
    1 <= occurrences is_aggregate pre /\
    state_dict (servicer w1)
      = Some (global_average (collected deserialize_model requests tr)) /\
    collected deserialize_model requests tr
      ≡ₚ map (fun r => deserialize_model (snd r)) requests.
Proof.
  intros Hready Hreach Heq.
  destruct (reach_split _ _ _ _ _ _ Hreach Heq) as (w1 & w2 & j & Hpre & Hstep).
  destruct (step_event _ _ _ _ Hstep) as (c & Hc & -> & Hpc).
  pose proof (reach_inv _ _ Hready Hpre) as Hinv1.
  pose proof (reach_inv _ _ Hready Hreach) as Hinv.
  assert (Hagg : 0 < count aggregated (calls w1)).
  { apply (count_pos _ _ _ _ Hc). unfold aggregated. rewrite Hpc. reflexivity. }
  pose proof (Forall_lookup_1 _ _ _ _ (inv_pc _ _ _ _ _ Hinv1) Hc) as Hok.
  cbv beta in Hok. rewrite Hpc in Hok. simpl in Hok.
  assert (Hcol : collected deserialize_model requests tr
                 = collected deserialize_model requests pre).
  { subst tr. eapply appenders_done; eauto. }
  exists w1, w2. split; [exact Hpre|]. split; [exact Hstep|]. split; [|split; [|split]].
  - rewrite (inv_publishes _ _ _ _ _ Hinv1).
    destruct (Nat.eqb_spec (count aggregated (calls w1)) 0); [lia | reflexivity].
  - rewrite (inv_aggregates _ _ _ _ _ Hinv1). lia.
  - rewrite Hcol. apply (inv_published _ _ _ _ _ Hinv1 Hagg).
  - rewrite Hcol. eapply collected_all; eauto.
Qed.

(** The append that completes the count calls [notify_all] while nothing
    has been aggregated. *)
Lemma notify_before_aggregate tr w pre j post :
  round_ready s0 requests ->
  reach deserialize_model clock (round_start s0 requests) tr w ->
  tr = pre ++ EvAppend j true :: post ->
  occurrences is_aggregate pre = 0 /\
  length (appenders pre) + 1 = length requests.
Proof.
  intros Hready Hreach Heq.
  destruct (reach_split _ _ _ _ _ _ Hreach Heq) as (w1 & w2 & i & Hpre & Hstep).
  destruct (step_event _ _ _ _ Hstep) as (c & Hc & -> & Hpc & Hb).
  pose proof (reach_inv _ _ Hready Hpre) as Hinv1.
  assert (Hnot : appended c = false) by (unfold appended; rewrite Hpc; reflexivity).
  pose proof (count_lt_length _ _ _ _ Hc Hnot) as Hlt.
  rewrite (inv_length _ _ Hinv1) in Hlt.
  pose proof (inv_collecting_before_full _ _ Hinv1 Hlt) as Hg0.
  destruct (inv_collecting _ _ _ _ _ Hinv1 Hg0) as [Hla _].
  unfold append_update in Hb. cbn [snd] in Hb.
  rewrite (inv_target _ _ _ _ _ Hinv1), Hla, length_app in Hb.
  rewrite (inv_collected_length _ _ Hinv1) in Hb. cbn [length] in Hb.
  symmetry in Hb. apply Nat.leb_le in Hb.
  split.
  - rewrite (inv_aggregates _ _ _ _ _ Hinv1). exact Hg0.
  - rewrite (inv_appenders _ _ _ _ _ Hinv1). lia.
Qed.

(** Every aggregation comes after the [notify_all] of the round, and the
    first one, whoever runs it, is the one that publishes. *)
Lemma aggregate_after_notify tr w pre i b post :
  round_ready s0 requests ->
  reach deserialize_model clock (round_start s0 requests) tr w ->
  tr = pre ++ EvAggregate i b :: post ->
  occurrences is_notify pre = 1 /\
  b = (occurrences is_aggregate pre =? 0).
Proof.
  intros Hready Hreach Heq.
  destruct (reach_split _ _ _ _ _ _ Hreach Heq) as (w1 & w2 & j & Hpre & Hstep).
  destruct (step_event _ _ _ _ Hstep) as (c & Hc & -> & Hpc & ->).
  pose proof (reach_inv _ _ Hready Hpre) as Hinv1.
  pose proof (Forall_lookup_1 _ _ _ _ (inv_pc _ _ _ _ _ Hinv1) Hc) as Hok.
  cbv beta in Hok. rewrite Hpc in Hok. simpl in Hok.
  pose proof (lookup_lt_Some _ _ _ Hc) as Hi. rewrite (inv_length _ _ Hinv1) in Hi.
  split.
  - rewrite (inv_notifies _ _ _ _ _ Hinv1), Hok, Nat.eqb_refl.
    destruct (Nat.ltb_spec 0 (length requests)); [reflexivity | lia].
  - rewrite (inv_aggregates _ _ _ _ _ Hinv1). eapply inv_holds_models; eauto.
Qed.

(** What a finished round has done. *)
Lemma round_finished tr w :
  round_ready s0 requests ->
  reach deserialize_model clock (round_start s0 requests) tr w ->
  all_returned w ->
  occurrences is_aggregate tr = length requests /\
  occurrences is_return tr = length requests.
Proof.
  intros Hready Hreach Hall.
  pose proof (reach_inv _ _ Hready Hreach) as Hinv.
  rewrite (inv_aggregates _ _ _ _ _ Hinv), (inv_returns _ _ _ _ _ Hinv).
  rewrite <- (inv_length _ _ Hinv). split; apply count_all;
    (eapply Forall_impl; [exact Hall|]); intros c Hc;
    [unfold aggregated | unfold returned]; rewrite Hc; reflexivity.
Qed.

Lemma publish_at_most_once tr w :
  round_ready s0 requests ->
  reach deserialize_model clock (round_start s0 requests) tr w ->
  occurrences is_publish tr <= 1.
Proof.
  intros Hready Hreach.
  rewrite (inv_publishes _ _ _ _ _ (reach_inv _ _ Hready Hreach)).
  destruct (count aggregated (calls w) =? 0); lia.
Qed.

End RoundInvariant.

(** ** A round of [target] submissions *)

Lemma two_users_ready : round_ready two_users ready_requests.
Proof.
  split; [reflexivity|]. split; [reflexivity|].
  apply Forall_cons; split; [vm_compute; eexists; reflexivity|].
  apply Forall_cons; split; [vm_compute; eexists; reflexivity|].
  apply Forall_nil_2.
Qed.

Lemma waiter_first_runs :
  fst (execute (fun d => d) at_500 waiter_first ready_round) = waiter_first_trace.
Proof. vm_compute. reflexivity. Qed.

Lemma waiter_first_reach :
  reach (fun d => d) at_500 ready_round waiter_first_trace
        (snd (execute (fun d => d) at_500 waiter_first ready_round)).
Proof.
  rewrite <- waiter_first_runs. apply execute_reach.
Qed.

(** The statement of C1 fails: by the time the second caller returns,
    [_compute_global_average] has been called twice in the round. *)
Lemma SendMessage_aggregate_once_counterexample :
  ~ (forall (clock : nat -> float) (s : @Servicer float)
            (requests : list (string * dict float)) tr w pre i post,
        round_ready s requests ->
        reach (fun d => d) clock (round_start s requests) tr w ->
        tr = pre ++ EvReturn i :: post ->
        occurrences is_aggregate pre = 1).
Proof.
  intros Hclaim.
  specialize (Hclaim at_500 two_users ready_requests waiter_first_trace _
                [EvHeartbeat 0; EvAppend 0 false; EvWait 0;
                 EvHeartbeat 1; EvAppend 1 true; EvPass 1;
                 EvPass 0; EvAggregate 0 true; EvReturn 0;
                 EvAggregate 1 false] 1 []
                two_users_ready waiter_first_reach eq_refl).
  discriminate Hclaim.
Qed.

(** C1, as the code has it: in a round of [target] calls by registered
    clients, started when nothing is collected, every caller calls
    [_compute_global_average] itself before it returns, so the function is
    called once per caller; exactly one of these calls, the first, finds
    the collection non-empty and publishes.  Where a call returns, that
    publication has happened, and the snapshot is the average of all the
    [target] maps of the round, the same for every caller.  A thread can
    take a step as long as some call has not returned, and no execution
    has more than [7 * target] steps, so nobody waits forever. *)
Theorem SendMessage_round_publishes_once :
  forall (T : Type) (H : Tensor T) (bytes : Type) (deser : bytes -> dict T)
         (clock : nat -> float) (s : @Servicer T)
         (requests : list (string * bytes)) tr w,
    round_ready s requests ->
    reach deser clock (round_start s requests) tr w ->
    (forall pre i post,
        tr = pre ++ EvReturn i :: post ->
        exists w1 w2,
          reach deser clock (round_start s requests) pre w1 /\
          step deser clock i w1 = Some (EvReturn i, w2) /\
          occurrences is_publish pre = 1 /\
          1 <= occurrences is_aggregate pre /\
          state_dict (servicer w1)
            = Some (global_average (collected deser requests tr)) /\
          collected deser requests tr ≡ₚ map (fun r => deser (snd r)) requests) /\
    occurrences is_publish tr <= 1 /\
    occurrences is_aggregate tr = count aggregated (calls w) /\
    (all_returned w ->
     occurrences is_aggregate tr = length requests /\
     occurrences is_return tr = length requests) /\
    (~ all_returned w -> exists i e w', step deser clock i w = Some (e, w')) /\
    length tr + remaining w <= 7 * length requests.
Proof.
  intros T H bytes deser clock s requests tr w Hready Hreach.
  pose proof (reach_inv deser clock s requests tr w Hready Hreach) as Hinv.
  split; [|split; [|split; [|split; [|split]]]].
  - intros pre i post Heq. eapply return_after_publish; eauto.
  - eapply publish_at_most_once; eauto.
  - apply (inv_aggregates _ _ _ _ _ Hinv).
  - eapply round_finished; eauto.
  - eapply inv_enabled; eauto.
  - apply (inv_progress _ _ _ _ _ Hinv).
Qed.

Lemma SendMessage_round_publishes_once_witness :
  occurrences is_publish waiter_first_trace <= 1 /\
  occurrences is_aggregate waiter_first_trace = 2 /\
  exists w1 w2,
    step (fun d => d) at_500 1 w1 = Some (EvReturn 1, w2) /\
    state_dict (servicer w1) = Some [("a", 3%float)].
Proof.
  destruct (SendMessage_round_publishes_once float _ (dict float) (fun d => d)
              at_500 two_users ready_requests waiter_first_trace _
              two_users_ready waiter_first_reach)
    as (Hret & Hpub & Hagg & _).
  split; [exact Hpub|]. split; [reflexivity|].
  destruct (Hret [EvHeartbeat 0; EvAppend 0 false; EvWait 0;
                  EvHeartbeat 1; EvAppend 1 true; EvPass 1;
                  EvPass 0; EvAggregate 0 true; EvReturn 0;
                  EvAggregate 1 false] 1 [] eq_refl)
    as (w1 & w2 & _ & Hstep & _ & _ & Hsd & _).
  exists w1, w2. split; [exact Hstep|]. rewrite Hsd. vm_compute. reflexivity.
Defined.

(** The statement of C3 fails on both counts: in the round below
    [notify_all] is called when nothing has been published yet, and the
    aggregate is computed and published by the thread that was waiting, not
    by the one whose submission completed the count. *)
Lemma SendMessage_notify_counterexample :
  ~ (forall (clock : nat -> float) (s : @Servicer float)
            (requests : list (string * dict float)) tr w pre j post,
        round_ready s requests ->
        reach (fun d => d) clock (round_start s requests) tr w ->
        tr = pre ++ EvAppend j true :: post ->
        1 <= occurrences is_publish pre) /\
  ~ (forall (clock : nat -> float) (s : @Servicer float)
            (requests : list (string * dict float)) tr w pre i post,
        round_ready s requests ->
        reach (fun d => d) clock (round_start s requests) tr w ->
        tr = pre ++ EvAggregate i true :: post ->
        In (EvAppend i true) pre).
Proof.
  split; intros Hclaim.
  - specialize (Hclaim at_500 two_users ready_requests waiter_first_trace _
                  [EvHeartbeat 0; EvAppend 0 false; EvWait 0; EvHeartbeat 1] 1
                  [EvPass 1; EvPass 0; EvAggregate 0 true; EvReturn 0;
                   EvAggregate 1 false; EvReturn 1]
                  two_users_ready waiter_first_reach eq_refl).
    vm_compute in Hclaim. lia.
  - specialize (Hclaim at_500 two_users ready_requests waiter_first_trace _
                  [EvHeartbeat 0; EvAppend 0 false; EvWait 0;
                   EvHeartbeat 1; EvAppend 1 true; EvPass 1; EvPass 0] 0
                  [EvReturn 0; EvAggregate 1 false; EvReturn 1]
                  two_users_ready waiter_first_reach eq_refl).
    simpl in Hclaim.
    repeat (destruct Hclaim as [Hclaim|Hclaim]; [discriminate Hclaim|]).
    exact Hclaim.
Qed.

(** C3, as the code has it: the submission that brings the count to the
    target calls [notify_all] in its first critical section, when no
    aggregation has run; every call of [_compute_global_average] comes
    after that [notify_all], and the first call, by whichever thread of the
    round makes it, is the one that publishes.  A call still returns only
    after the publication, so no caller leaves with the state from before
    the aggregation. *)
Theorem SendMessage_notify_precedes_aggregation :
  forall (T : Type) (H : Tensor T) (bytes : Type) (deser : bytes -> dict T)
         (clock : nat -> float) (s : @Servicer T)
         (requests : list (string * bytes)) tr w,
    round_ready s requests ->
    reach deser clock (round_start s requests) tr w ->
    (forall pre j post,
        tr = pre ++ EvAppend j true :: post ->
        occurrences is_aggregate pre = 0 /\
        length (appenders pre) + 1 = length requests) /\
    (forall pre i b post,
        tr = pre ++ EvAggregate i b :: post ->
        occurrences is_notify pre = 1 /\
        b = (occurrences is_aggregate pre =? 0)) /\
    (forall pre i post,
        tr = pre ++ EvReturn i :: post ->
        occurrences is_publish pre = 1).
Proof.
  intros T H bytes deser clock s requests tr w Hready Hreach.
  split; [|split].
  - intros pre j post Heq. eapply notify_before_aggregate; eauto.
  - intros pre i b post Heq. eapply aggregate_after_notify; eauto.
  - intros pre i post Heq.
    destruct (return_after_publish deser clock s requests tr w pre i post
                Hready Hreach Heq) as (_ & _ & _ & _ & Hpub & _).
    exact Hpub.
Qed.

Lemma SendMessage_notify_precedes_aggregation_witness :
  occurrences is_aggregate
    [EvHeartbeat 0; EvAppend 0 false; EvWait 0; EvHeartbeat 1] = 0 /\
  occurrences is_notify
    [EvHeartbeat 0; EvAppend 0 false; EvWait 0;
     EvHeartbeat 1; EvAppend 1 true; EvPass 1; EvPass 0] = 1 /\
  occurrences is_publish
    [EvHeartbeat 0; EvAppend 0 false; EvWait 0;
     EvHeartbeat 1; EvAppend 1 true; EvPass 1;
     EvPass 0; EvAggregate 0 true] = 1.
Proof.
  destruct (SendMessage_notify_precedes_aggregation float _ (dict float)
              (fun d => d) at_500 two_users ready_requests waiter_first_trace _
              two_users_ready waiter_first_reach)
    as (Hnotify & Hagg & Hret).
  split; [|split].
  - exact (proj1 (Hnotify [EvHeartbeat 0; EvAppend 0 false; EvWait 0; EvHeartbeat 1]
                    1 [EvPass 1; EvPass 0; EvAggregate 0 true; EvReturn 0;
                       EvAggregate 1 false; EvReturn 1] eq_refl)).
  - exact (proj1 (Hagg [EvHeartbeat 0; EvAppend 0 false; EvWait 0;
                        EvHeartbeat 1; EvAppend 1 true; EvPass 1; EvPass 0]
                    0 true [EvReturn 0; EvAggregate 1 false; EvReturn 1] eq_refl)).
  - exact (Hret [EvHeartbeat 0; EvAppend 0 false; EvWait 0;
                 EvHeartbeat 1; EvAppend 1 true; EvPass 1;
                 EvPass 0; EvAggregate 0 true]
             0 [EvAggregate 1 false; EvReturn 1] eq_refl).
Defined.

(** * More of the servicer *)

(** ** The registry *)

(** X1: [SendBye] for an id that is not registered raises the [KeyError]
    of [pop]; for a registered id it removes that session and no other, the
    number of sessions goes down by one and the number of alive ones by one
    exactly when the session was alive, the round and the snapshot are not
    touched, and a second [SendBye] for the id raises. *)
Theorem SendBye_removes_that_session :
  forall (T : Type) (s : @Servicer T) (user_id : string),
    (user_ids s !! user_id = None ->
     SendBye user_id s = inl (KeyError user_id)) /\
    (forall user_info,
        user_ids s !! user_id = Some user_info ->
        exists s',
          SendBye user_id s = inr s' /\
          user_ids s' !! user_id = None /\
          (forall other, other <> user_id ->
                         user_ids s' !! other = user_ids s !! other) /\
          size (user_ids s) = S (size (user_ids s')) /\
          count_alive (user_ids s)
            = (if decide (status user_info = STATUS_ALIVE) then 1 else 0)
              + count_alive (user_ids s') /\
          local_averages s' = local_averages s /\
          state_dict s' = state_dict s /\
          SendBye user_id s' = inl (KeyError user_id)).
Proof.
  intros T s user_id. unfold SendBye. split.
  - intros ->. reflexivity.
  - intros user_info Hin. rewrite Hin. eexists. split; [reflexivity|].
    cbn [user_ids set_user_ids local_averages state_dict].
    rewrite lookup_delete_eq.
    split; [reflexivity|]. split; [|split; [|split; [|split; [|split]]]].
    + intros other Hne. apply lookup_delete_ne. congruence.
    + rewrite map_size_delete, Hin. cbn [Nat.pred].
      assert (0 < size (user_ids s)); [|lia].
      destruct (decide (size (user_ids s) = 0)) as [E|E]; [|lia].
      apply map_size_empty_inv in E. rewrite E, lookup_empty in Hin. discriminate Hin.
    + apply count_alive_delete, Hin.
    + reflexivity.
    + reflexivity.
    + reflexivity.
Qed.

Lemma SendBye_removes_that_session_witness :
  exists s',
    SendBye "0x5" two_users = inr s' /\
    user_ids s' !! "0x5" = None /\
    size (user_ids two_users) = S (size (user_ids s')) /\
    SendBye "0x5" s' = inl (KeyError "0x5").
Proof.
  destruct (proj2 (SendBye_removes_that_session float two_users "0x5")
              {| user_num := 1; status := STATUS_ALIVE; last_active := 100%float |})
    as (s' & Hbye & Hgone & _ & Hsize & _ & _ & _ & Hagain).
  - vm_compute. reflexivity.
  - exists s'. split; [exact Hbye|]. split; [exact Hgone|].
    split; [exact Hsize | exact Hagain].
Defined.

(** X2: a [GetID] that returns has added one session under the id it
    returns, alive, with the ordinal it returns and the time of the call;
    every other session is as it was, so one more session is registered and
    one more is alive; the round and the snapshot are not touched. *)
Theorem GetID_adds_one_alive_session :
  forall (T : Type) (s : @Servicer T) draws now r s' rest,
    GetID draws now s = Some (r, s', rest) ->
    user_ids s' !! comm_pb2.id r
      = Some {| user_num := comm_pb2.num r; status := STATUS_ALIVE;
                last_active := now |} /\
    (forall other, other <> comm_pb2.id r ->
                   user_ids s' !! other = user_ids s !! other) /\
    size (user_ids s') = S (size (user_ids s)) /\
    count_alive (user_ids s') = S (count_alive (user_ids s)) /\
    local_averages s' = local_averages s /\
    num_clients s' = num_clients s /\
    state_dict s' = state_dict s.
Proof.
  intros T s draws now r s' rest Hget.
  pose proof (GetID_spec _ _ _ _ _ _ Hget) as (Hfresh & Hnum & Hids).
  rewrite Hids. split; [apply lookup_insert_eq|].
  split; [intros other Hne; apply lookup_insert_ne; congruence|].
  split; [apply map_size_insert_None, Hfresh|].
  split; [rewrite (count_alive_insert _ _ _ Hfresh); reflexivity|].
  unfold GetID in Hget.
  destruct (_generate_ID draws s) as [[random_id rest']|]; [|discriminate Hget].
  injection Hget as _ <- _. auto.
Qed.

Lemma GetID_adds_one_alive_session_witness :
  exists r s' rest,
    GetID [5%Z; 9%Z] 500%float two_users = Some (r, s', rest) /\
    comm_pb2.id r = "0x9" /\
    comm_pb2.num r = 3 /\
    count_alive (user_ids s') = S (count_alive (user_ids two_users)).
Proof.
  destruct (GetID [5%Z; 9%Z] 500%float two_users) as [[[r s'] rest]|] eqn:E;
    [|vm_compute in E; discriminate E].
  exists r, s', rest. split; [reflexivity|].
  destruct (GetID_adds_one_alive_session float two_users _ _ r s' rest E)
    as (_ & _ & _ & Hcount & _).
  assert (Hr : match GetID [5%Z; 9%Z] 500%float two_users with
               | Some (r, _, _) => (comm_pb2.id r, comm_pb2.num r)
               | None => ("", 0)
               end = ("0x9", 3)) by (vm_compute; reflexivity).
  rewrite E in Hr. injection Hr as Hid Hnum.
  split; [exact Hid|]. split; [exact Hnum | exact Hcount].
Defined.

(** X3: ids are fresh only against the sessions registered now.  Once a
    client has said goodbye, a [GetID] whose draw is the same integer
    hands out the very same id, with the same ordinal, again. *)
Theorem GetID_reissues_id_after_SendBye :
  forall (T : Type) (s : @Servicer T) (d : Z) (rest : list Z) (now1 now2 : float),
    user_ids s !! hex (hash d) = None ->
    exists r s1 s2 s3,
      GetID (d :: rest) now1 s = Some (r, s1, rest) /\
      SendBye (comm_pb2.id r) s1 = inr s2 /\
      GetID (d :: rest) now2 s2 = Some (r, s3, rest) /\
      comm_pb2.id r = hex (hash d) /\
      comm_pb2.num r = size (user_ids s) + 1.
Proof.
  intros T s d rest now1 now2 Hfree.
  unfold GetID at 1. cbn [_generate_ID]. rewrite Hfree.
  eexists _, _, _, _. split; [reflexivity|].
  cbn [comm_pb2.id comm_pb2.num]. unfold SendBye.
  cbn [user_ids set_user_ids]. rewrite lookup_insert_eq.
  split; [reflexivity|].
  unfold GetID. cbn [_generate_ID user_ids set_user_ids].
  rewrite delete_insert_eq, (delete_id _ _ Hfree), Hfree.
  split; [reflexivity|]. split; reflexivity.
Qed.

Lemma GetID_reissues_id_after_SendBye_witness :
  exists r s1 s2 s3,
    GetID [9%Z] 500%float two_users = Some (r, s1, []) /\
    SendBye (comm_pb2.id r) s1 = inr s2 /\
    GetID [9%Z] 600%float s2 = Some (r, s3, []) /\
    comm_pb2.id r = "0x9".
Proof.
  destruct (GetID_reissues_id_after_SendBye float two_users 9%Z [] 500%float
              600%float) as (r & s1 & s2 & s3 & H1 & H2 & H3 & Hid & _).
  - vm_compute. reflexivity.
  - exists r, s1, s2, s3. split; [exact H1|]. split; [exact H2|].
    split; [exact H3 | exact Hid].
Defined.

(** X4: the ordinal is the number of sessions plus one, so it repeats
    after a goodbye: when a client registers, an older client leaves and
    another one registers, the two newcomers hold different ids and the
    same ordinal, both in the registry. *)
Theorem GetID_ordinal_repeats_after_SendBye :
  forall (T : Type) (s s1 s2 s3 : @Servicer T) (old : string)
         draws1 now1 r1 rest1 draws2 now2 r2 rest2,
    is_Some (user_ids s !! old) ->
    GetID draws1 now1 s = Some (r1, s1, rest1) ->
    SendBye old s1 = inr s2 ->
    GetID draws2 now2 s2 = Some (r2, s3, rest2) ->
    comm_pb2.id r2 <> comm_pb2.id r1 /\
    comm_pb2.num r2 = comm_pb2.num r1 /\
    user_num <$> user_ids s3 !! comm_pb2.id r1 = Some (comm_pb2.num r1) /\
    user_num <$> user_ids s3 !! comm_pb2.id r2 = Some (comm_pb2.num r1).
Proof.
  intros T s s1 s2 s3 old draws1 now1 r1 rest1 draws2 now2 r2 rest2
         [u Hold] H1 Hbye H2.
  apply GetID_spec in H1 as (Hfresh1 & Hnum1 & Hids1).
  assert (Hne : old <> comm_pb2.id r1) by congruence.
  assert (Hold1 : user_ids s1 !! old = Some u).
  { rewrite Hids1, lookup_insert_ne by congruence. exact Hold. }
  assert (Hs2 : user_ids s2 = delete old (user_ids s1)).
  { unfold SendBye in Hbye. rewrite Hold1 in Hbye. injection Hbye as <-.
    reflexivity. }
  apply GetID_spec in H2 as (Hfresh2 & Hnum2 & Hids3).
  rewrite Hs2 in Hfresh2, Hnum2, Hids3.
  assert (Hin1 : delete old (user_ids s1) !! comm_pb2.id r1
                 = Some {| user_num := comm_pb2.num r1; status := STATUS_ALIVE;
                           last_active := now1 |}).
  { rewrite lookup_delete_ne by exact Hne. rewrite Hids1. apply lookup_insert_eq. }
  assert (Hdiff : comm_pb2.id r2 <> comm_pb2.id r1) by congruence.
  assert (Hsame : comm_pb2.num r2 = comm_pb2.num r1).
  { rewrite Hnum2, Hnum1, map_size_delete, Hold1. cbn [Nat.pred].
    rewrite Hids1, (map_size_insert_None _ _ _ Hfresh1). reflexivity. }
  split; [exact Hdiff|]. split; [exact Hsame|]. rewrite Hids3. split.
  - rewrite lookup_insert_ne by exact Hdiff. rewrite Hin1. reflexivity.
  - rewrite lookup_insert_eq. cbn. rewrite Hsame. reflexivity.
Qed.

Lemma GetID_ordinal_repeats_after_SendBye_witness :
  exists (r1 r2 : comm_pb2.ID) (s3 : @Servicer float),
    comm_pb2.num r1 = 3 /\ comm_pb2.num r2 = 3 /\
    comm_pb2.id r1 = "0x9" /\ comm_pb2.id r2 = "0xb" /\
    user_num <$> user_ids s3 !! "0x9" = Some 3 /\
    user_num <$> user_ids s3 !! "0xb" = Some 3.
Proof.
  destruct (GetID [9%Z] 500%float two_users) as [[[r1 s1] rest1]|] eqn:E1;
    [|vm_compute in E1; discriminate E1].
  assert (Hr1 : match GetID [9%Z] 500%float two_users with
                | Some (r, _, _) => (comm_pb2.id r, comm_pb2.num r)
                | None => ("", 0)
                end = ("0x9", 3)) by (vm_compute; reflexivity).
  rewrite E1 in Hr1. injection Hr1 as Hid1 Hnum1.
  destruct (SendBye "0x5" s1) as [e|s2] eqn:E2.
  { exfalso. unfold SendBye in E2.
    destruct (GetID_spec _ _ _ _ _ _ E1) as (_ & _ & Hids1).
    rewrite Hids1, lookup_insert_ne in E2 by (rewrite Hid1; discriminate).
    vm_compute in E2. discriminate E2. }
  assert (Hfree : user_ids s2 !! hex (hash 11%Z) = None).
  { unfold SendBye in E2. destruct (user_ids s1 !! "0x5"); [|discriminate E2].
    injection E2 as <-. cbn [user_ids set_user_ids].
    rewrite lookup_delete_ne by discriminate.
    destruct (GetID_spec _ _ _ _ _ _ E1) as (_ & _ & Hids1).
    rewrite Hids1, lookup_insert_ne by (rewrite Hid1; discriminate).
    vm_compute. reflexivity. }
  destruct (GetID [11%Z] 600%float s2) as [[[r2 s3] rest2]|] eqn:E3.
  2:{ exfalso. unfold GetID in E3. cbn [_generate_ID] in E3.
      rewrite Hfree in E3. discriminate E3. }
  assert (Hid2 : comm_pb2.id r2 = "0xb").
  { unfold GetID in E3. cbn [_generate_ID] in E3. rewrite Hfree in E3.
    injection E3 as <- _ _. reflexivity. }
  destruct (GetID_ordinal_repeats_after_SendBye float two_users s1 s2 s3 "0x5"
              [9%Z] 500%float r1 rest1 [11%Z] 600%float r2 rest2)
    as (_ & Hnum & Hl1 & Hl2);
    [vm_compute; eexists; reflexivity | exact E1 | exact E2 | exact E3 |].
  exists r1, r2, s3. rewrite <- Hid1, <- Hid2, <- Hnum1.
  split; [reflexivity|]. split; [exact Hnum|].
  split; [reflexivity|]. split; [reflexivity|]. split; [exact Hl1 | exact Hl2].
Defined.

(** X5: in the range [randint] draws from, [hash] is the identity and
    the hexadecimal string reads back as the integer, so two draws give the
    same id only when they are the same integer. *)
Theorem generated_id_determines_draw :
  forall a b : Z,
    in_draw_range a ->
    (hash a = a /\ HexString.to_Z (hex (hash a)) = a) /\
    (in_draw_range b -> hex (hash a) = hex (hash b) -> a = b).
Proof.
  assert (Hhash : forall d, in_draw_range d -> hash d = d).
  { intros d Hd. unfold in_draw_range in Hd. unfold hash.
    change (2 ^ 31 - 1)%Z with 2147483647%Z in Hd.
    change (2 ^ 61 - 1)%Z with 2305843009213693951%Z.
    rewrite Z.rem_small by lia. destruct (Z.eqb_spec d (-1)); [lia | reflexivity]. }
  intros a b Ha. split.
  - split; [exact (Hhash a Ha)|]. unfold hex. rewrite HexString.to_Z_of_Z.
    exact (Hhash a Ha).
  - intros Hb Heq. unfold hex in Heq. apply (f_equal HexString.to_Z) in Heq.
    rewrite !HexString.to_Z_of_Z, (Hhash a Ha), (Hhash b Hb) in Heq. exact Heq.
Qed.

Lemma generated_id_determines_draw_witness :
  hash 255 = 255%Z /\ HexString.to_Z (hex (hash 255)) = 255%Z.
Proof.
  apply (generated_id_determines_draw 255 255).
  unfold in_draw_range. split; [discriminate | reflexivity].
Defined.

Lemma filter_length_le {A : Type} (P Q : A -> Prop)
      `{forall x, Decision (P x)} `{forall x, Decision (Q x)} (l : list A) :
  (forall x, P x -> Q x) ->
  length (filter P l) <= length (filter Q l).
Proof.
  intros HPQ. induction l as [|x l IH]; [reflexivity|].
  rewrite !filter_cons. destruct (decide (P x)) as [HP|HP].
  - rewrite decide_True by (apply HPQ, HP). simpl. lia.
  - destruct (decide (Q x)); simpl; lia.
Qed.

Lemma sweep_sweep clock (ids : gmap string UserInfo) :
  sweep clock (sweep clock ids) = sweep clock ids.
Proof.
  apply map_eq. intros user_id. rewrite !sweep_lookup.
  destruct (ids !! user_id) as [u|]; [|reflexivity]. cbn [fmap option_fmap option_map].
  f_equal. destruct (stale (clock user_id) u) eqn:E.
  - unfold stale, set_status in *. cbn [last_active]. rewrite E. reflexivity.
  - rewrite E. reflexivity.
Qed.

(** X6: [GetSize] only ever lowers the count.  The size it returns is at
    most the number of sessions that were alive, and at most the number of
    sessions; it removes no session and revives none, a session that is
    alive afterwards being exactly as it was; a second call reading the
    same clock returns the same size and changes nothing; the round and the
    snapshot are not touched. *)
Theorem GetSize_only_lowers_the_count :
  forall (T : Type) (s : @Servicer T) (clock : string -> float),
    let r := fst (GetSize clock s) in
    let s' := snd (GetSize clock s) in
    comm_pb2.size r <= count_alive (user_ids s) /\
    comm_pb2.size r <= size (user_ids s) /\
    size (user_ids s') = size (user_ids s) /\
    (forall user_id u',
        user_ids s' !! user_id = Some u' -> status u' = STATUS_ALIVE ->
        user_ids s !! user_id = Some u') /\
    GetSize clock s' = (r, s') /\
    local_averages s' = local_averages s /\
    state_dict s' = state_dict s.
Proof.
  intros T s clock. cbn zeta. unfold GetSize.
  cbn [fst snd comm_pb2.size user_ids set_user_ids local_averages state_dict].
  split; [|split; [|split; [|split; [|split]]]].
  - rewrite count_alive_sweep. apply filter_length_le. intros x [Hx _]. exact Hx.
  - rewrite count_alive_sweep, <- length_map_to_list. apply length_filter.
  - rewrite <- !size_dom, sweep_dom. reflexivity.
  - intros user_id u'. rewrite sweep_lookup.
    destruct (user_ids s !! user_id) as [u|]; [|discriminate].
    cbn [fmap option_fmap option_map].
    destruct (stale (clock user_id) u); intros [= <-]; [discriminate | reflexivity].
  - rewrite sweep_sweep. destruct s; reflexivity.
  - split; reflexivity.
Qed.

Lemma GetSize_only_lowers_the_count_witness :
  comm_pb2.size (fst (GetSize at_450 two_users)) = 1 /\
  count_alive (user_ids two_users) = 2 /\
  user_ids two_users !! "0x7"
    = Some {| user_num := 2; status := STATUS_ALIVE; last_active := 350%float |}.
Proof.
  destruct (GetSize_only_lowers_the_count float two_users at_450)
    as (_ & _ & _ & Hkept & _).
  split; [vm_compute; reflexivity|]. split; [vm_compute; reflexivity|].
  apply Hkept; vm_compute; reflexivity.
Defined.

(** ** More on the aggregator *)

Section AggregatorKeys.
Context {T : Type} `{Tensor T}.
Implicit Types (avg sd : dict T) (las : list (dict T)) (k : string).

Lemma keys_dict_set_eq k (v : T) avg :
  keys (dict_set k v avg) = if decide (k ∈ keys avg) then keys avg else keys avg ++ [k].
Proof.
  induction avg as [|[k0 v0] avg IH]; cbn [dict_set keys map fst].
  - rewrite decide_False by apply not_elem_of_nil. reflexivity.
  - destruct (String.eqb k k0) eqn:E.
    + apply String.eqb_eq in E. subst k0. cbn [keys map fst].
      rewrite decide_True by apply list_elem_of_here. reflexivity.
    + apply String.eqb_neq in E. cbn [keys map fst]. fold (keys (dict_set k v avg)).
      fold (keys avg). rewrite IH.
      destruct (decide (k ∈ keys avg)) as [Hin|Hin].
      * rewrite decide_True by (apply list_elem_of_further, Hin). reflexivity.
      * rewrite decide_False; [reflexivity|].
        rewrite elem_of_cons. intros [?|?]; contradiction.
Qed.

Lemma keys_accumulate avg (item : string * T) :
  keys (accumulate avg item) = add_key (keys avg) (fst item).
Proof.
  destruct item as [name param]. unfold accumulate, add_key. cbn [fst].
  destruct (contains "bn" name); [reflexivity|].
  destruct (dict_get name avg) as [a|] eqn:E; rewrite keys_dict_set_eq.
  - apply dict_get_Some_keys in E. rewrite !decide_True by exact E. reflexivity.
  - apply dict_get_None in E. rewrite !decide_False by exact E. reflexivity.
Qed.

Lemma keys_fold_accumulate sd avg :
  keys (fold_left accumulate sd avg) = fold_left add_key (keys sd) (keys avg).
Proof.
  revert avg. induction sd as [|item sd IH]; intros avg; [reflexivity|].
  cbn [fold_left]. rewrite IH, keys_accumulate. reflexivity.
Qed.

Lemma add_keys_fresh (l : list string) : forall ks,
  NoDup l -> (forall k, k ∈ l -> k ∉ ks) ->
  fold_left add_key l ks = ks ++ List.filter kept l.
Proof.
  induction l as [|name l IH]; intros ks Hnd Hfresh; cbn [fold_left List.filter].
  - symmetry. apply app_nil_r.
  - apply NoDup_cons in Hnd as [Hname Hnd].
    assert (Hk : name ∉ ks) by (apply Hfresh, list_elem_of_here).
    unfold add_key at 2, kept. destruct (contains "bn" name); cbn [negb].
    + apply IH; [exact Hnd|]. intros k Hin. apply Hfresh, list_elem_of_further, Hin.
    + rewrite decide_False by exact Hk. rewrite IH; [|exact Hnd|].
      * rewrite <- app_assoc. reflexivity.
      * intros k Hin. rewrite elem_of_app, list_elem_of_singleton.
        intros [Hks| ->]; [|contradiction].
        exact (Hfresh k (list_elem_of_further _ _ _ Hin) Hks).
Qed.

Lemma add_keys_known (l : list string) ks :
  (forall k, k ∈ l -> kept k = true -> k ∈ ks) ->
  fold_left add_key l ks = ks.
Proof.
  induction l as [|name l IH]; intros Hknown; cbn [fold_left]; [reflexivity|].
  assert (Hstep : add_key ks name = ks).
  { unfold add_key. destruct (contains "bn" name) eqn:E; [reflexivity|].
    rewrite decide_True; [reflexivity|].
    apply Hknown; [apply list_elem_of_here|]. unfold kept. rewrite E. reflexivity. }
  rewrite Hstep. apply IH. intros k Hin. apply Hknown, list_elem_of_further, Hin.
Qed.

Lemma keys_divide_params n avg : keys (divide_params n avg) = keys avg.
Proof.
  unfold divide_params.
  assert (Hgen : forall (l d : dict T),
    (forall k, k ∈ keys l -> k ∈ keys d) ->
    keys (fold_left
            (fun d '(name, param) =>
               dict_set name (tensor_div param (float_of_len n)) d) l d)
    = keys d).
  { induction l as [|[name param] l IH]; intros d Hsub; [reflexivity|].
    cbn [fold_left]. rewrite IH.
    - rewrite keys_dict_set_eq, decide_True; [reflexivity|].
      apply Hsub, list_elem_of_here.
    - intros k Hk. rewrite keys_dict_set_eq.
      rewrite decide_True by (apply Hsub, list_elem_of_here).
      apply Hsub, list_elem_of_further, Hk. }
  apply Hgen. auto.
Qed.

Lemma kept_filter_elem (l : list string) k :
  k ∈ l -> kept k = true -> k ∈ List.filter kept l.
Proof.
  intros Hin Hk. apply list_elem_of_In, List.filter_In.
  split; [apply list_elem_of_In, Hin | exact Hk].
Qed.

Lemma keys_sum_params_same (m : dict T) ms :
  wf_dict m ->
  Forall (fun m' => forall x, x ∈ keys m' <-> x ∈ keys m) ms ->
  keys (sum_params (m :: ms)) = List.filter kept (keys m).
Proof.
  intros Hwf Hsame. unfold sum_params. cbn [fold_left].
  assert (Hfirst : keys (fold_left accumulate m []) = List.filter kept (keys m)).
  { rewrite keys_fold_accumulate. cbn [keys map].
    rewrite (add_keys_fresh _ [] Hwf); [reflexivity|].
    intros k _. apply not_elem_of_nil. }
  revert Hfirst. generalize (fold_left accumulate m []). intros avg.
  revert avg. induction Hsame as [|m' ms Hm' _ IH]; intros avg Havg; [exact Havg|].
  cbn [fold_left]. apply IH. rewrite keys_fold_accumulate, Havg.
  apply add_keys_known. intros k Hin Hk. apply kept_filter_elem; [|exact Hk].
  apply Hm', Hin.
Qed.

End AggregatorKeys.

(** X7: maps with different key sets are not refused.  For any non-empty
    collection of well-formed maps, a name without ["bn"] that no map holds
    is absent from the result, and one that some maps hold gets the sum of
    the values of those maps, in their order, divided by the number of all
    the maps collected, also of those that do not hold the name. *)
Theorem compute_global_average_mismatched_keys :
  forall (T : Type) (H : Tensor T) (s : @Servicer T),
    local_averages s <> [] ->
    Forall wf_dict (local_averages s) ->
    exists avg,
      state_dict (_compute_global_average s) = Some avg /\
      wf_dict avg /\
      forall name,
        dict_get name avg =
          if contains "bn" name then None
          else match omap (dict_get name) (local_averages s) with
               | [] => None
               | v :: vs =>
                   Some (tensor_div (tensor_sum v vs)
                                    (float_of_len (length (local_averages s))))
               end.
Proof.
  intros T H s Hne Hwf. exists (global_average (local_averages s)).
  split; [|split].
  - unfold _compute_global_average. destruct (local_averages s); [contradiction|].
    reflexivity.
  - unfold wf_dict, global_average. rewrite keys_divide_params. apply wf_sum_params.
  - intros name. apply global_average_get, Hwf.
Qed.

Lemma compute_global_average_mismatched_keys_witness :
  exists avg,
    state_dict (_compute_global_average mismatched) = Some avg /\
    dict_get "a" avg = Some 1%float /\
    dict_get "b" avg = Some 2%float.
Proof.
  destruct (compute_global_average_mismatched_keys float _ mismatched)
    as (avg & Hsd & _ & Hget).
  - discriminate.
  - apply Forall_cons; split; [exact (NoDup_singleton "a")|].
    apply Forall_cons; split; [exact (NoDup_singleton "b") | apply Forall_nil_2].
  - exists avg. split; [exact Hsd|]. rewrite !Hget. split; vm_compute; reflexivity.
Defined.

(** X8: the result is an ordered dictionary in the order of the first
    map.  Its keys are always pairwise different, and for maps with one key
    set they are the names of the first map without those containing
    ["bn"], in the first map's order. *)
Theorem global_average_keeps_order :
  forall (T : Type) (H : Tensor T) (m : dict T) (ms : list (dict T)),
    wf_dict (global_average (m :: ms)) /\
    (wf_dict m ->
     Forall (fun m' => forall x, x ∈ keys m' <-> x ∈ keys m) ms ->
     keys (global_average (m :: ms)) = List.filter kept (keys m)).
Proof.
  intros T H m ms. unfold wf_dict at 1, global_average.
  rewrite keys_divide_params. split; [apply wf_sum_params|].
  intros Hwf Hsame. apply keys_sum_params_same; assumption.
Qed.

Lemma global_average_keeps_order_witness :
  keys (global_average
          [[("fc.weight", 1%float); ("bn1.bias", 5%float); ("conv1.weight", 3%float)];
           [("conv1.weight", 5%float); ("fc.weight", 3%float); ("bn1.bias", 7%float)]])
  = ["fc.weight"; "conv1.weight"].
Proof.
  rewrite (proj2 (global_average_keeps_order float _ _ _)).
  - reflexivity.
  - unfold wf_dict. cbn [keys map fst]. repeat (apply NoDup_cons_2);
      try apply NoDup_nil_2; rewrite ?elem_of_cons; intros Hin;
      repeat (destruct Hin as [Hin|Hin]; [discriminate Hin|]); inversion Hin.
  - apply Forall_cons; split; [|apply Forall_nil_2]. intros x. cbn [keys map fst].
    rewrite !elem_of_cons. tauto.
Defined.

(** ** Names of batch-norm layers *)

Lemma prefix_append (sub s : string) :
  String.prefix sub s = true <-> exists post, s = String.append sub post.
Proof.
  revert s. induction sub as [|a sub IH]; intros s.
  - split; [intros _; exists s; reflexivity | destruct s; reflexivity].
  - destruct s as [|b s]; cbn [String.prefix String.append].
    + split; [discriminate | intros [post Hp]; discriminate Hp].
    + destruct (ascii_dec a b) as [->|Hne].
      * rewrite IH. split; intros [post Hp]; exists post.
        -- rewrite Hp. reflexivity.
        -- injection Hp as ->. reflexivity.
      * split; [discriminate | intros [post Hp]; injection Hp as Hab _; congruence].
Qed.

Lemma contains_substring (sub s : string) :
  contains sub s = true <->
  exists pre post, s = String.append pre (String.append sub post).
Proof.
  induction s as [|a s IH]; cbn [contains].
  - destruct (String.prefix sub EmptyString) eqn:E.
    + apply prefix_append in E as [post Hp].
      split; [intros _; exists EmptyString, post; exact Hp | reflexivity].
    + split; [discriminate|]. intros (pre & post & Hp).
      destruct pre as [|a' pre]; [|discriminate Hp].
      assert (Ht : String.prefix sub EmptyString = true)
        by (apply prefix_append; exists post; exact Hp).
      congruence.
  - destruct (String.prefix sub (String a s)) eqn:E.
    + apply prefix_append in E as [post Hp].
      split; [intros _; exists EmptyString, post; exact Hp | reflexivity].
    + rewrite IH. split.
      * intros (pre & post & ->). exists (String a pre), post. reflexivity.
      * intros (pre & post & Hp). destruct pre as [|a' pre].
        -- assert (Ht : String.prefix sub (String a s) = true)
             by (apply prefix_append; exists post; exact Hp).
           congruence.
        -- injection Hp as _ ->. exists pre, post. reflexivity.
Qed.

Lemma dict_get_divide_params_None {T : Type} `{Tensor T} n k (avg : dict T) :
  dict_get k avg = None -> dict_get k (divide_params n avg) = None.
Proof.
  rewrite !dict_get_None, keys_divide_params. auto.
Qed.

Lemma dict_get_sum_params_bn {T : Type} `{Tensor T} k (las : list (dict T)) :
  contains "bn" k = true -> dict_get k (sum_params las) = None.
Proof.
  intros Hbn. unfold sum_params.
  assert (Hgen : forall avg : dict T,
    dict_get k avg = None ->
    dict_get k (fold_left (fun avg sd => fold_left accumulate sd avg) las avg) = None).
  { induction las as [|sd las IH]; intros avg Havg; cbn [fold_left]; [exact Havg|].
    apply IH. rewrite fold_accumulate_bn by exact Hbn. exact Havg. }
  apply Hgen. reflexivity.
Qed.

(** X9: the test ["bn" in name] is a substring test: it holds exactly of
    the names that have ["bn"] somewhere inside, first, last or in the
    middle.  Whatever was collected, no such name is a key of the average,
    so [fc.bnorm.weight] and [subnet.weight] are dropped like
    [bn1.weight]. *)
Theorem bn_substring_names_are_dropped :
  forall sub s : string,
    (contains sub s = true <->
     exists pre post, s = String.append pre (String.append sub post)) /\
    forall (T : Type) (H : Tensor T) (las : list (dict T)) (pre post : string),
      dict_get (String.append pre (String.append "bn" post)) (global_average las)
      = None.
Proof.
  intros sub s. split; [apply contains_substring|].
  intros T H las pre post. unfold global_average.
  apply dict_get_divide_params_None, dict_get_sum_params_bn.
  apply contains_substring. exists pre, post. reflexivity.
Qed.

(** ** The life of a session *)

(** X10: a servicer that was just constructed knows nobody.  [GetSize]
    reports no session, [SendBye] and [SendMessage] raise the [KeyError] of
    the id they are given, whatever it is, an aggregation finds nothing and
    changes nothing, and the first [GetID] takes its first draw and hands
    out ordinal one. *)
Theorem init_knows_nobody :
  forall (T : Type) (H : Tensor T) (bytes : Type) (deser : bytes -> dict T)
         (model0 : dict T) (clock : string -> float) (user_id : string)
         (now : float) (buffer : bytes) (d : Z) (rest : list Z),
    GetSize clock (init model0) = ({| comm_pb2.size := 0 |}, init model0) /\
    SendBye user_id (init model0) = inl (KeyError user_id) /\
    submit_entry deser user_id now buffer (init model0) = inl (KeyError user_id) /\
    aggregate_and_reset (init model0) = init model0 /\
    exists s1,
      GetID (d :: rest) now (init model0)
        = Some ({| comm_pb2.id := hex (hash d); comm_pb2.num := 1 |}, s1, rest) /\
      count_alive (user_ids s1) = 1.
Proof.
  intros T H bytes deser model0 clock user_id now buffer d rest.
  split; [|split; [|split; [|split]]].
  - unfold GetSize, init, set_user_ids. cbn [user_ids local_averages num_clients
      target_clients state_dict model]. unfold sweep. rewrite map_imap_empty.
    reflexivity.
  - reflexivity.
  - reflexivity.
  - reflexivity.
  - unfold GetID. cbn [_generate_ID init user_ids]. rewrite lookup_empty.
    eexists. split; [reflexivity|]. cbn [user_ids set_user_ids].
    rewrite count_alive_insert by apply lookup_empty. reflexivity.
Qed.

(** X11: an id can be used from its [GetID] to its [SendBye] and at no
    other time.  Before the [GetID] that hands it out a [SendMessage] under
    the id raises [KeyError]; after it the submission is taken; and a
    [SendBye] of the id puts the servicer back exactly as it was before the
    [GetID], so the submission raises again. *)
Theorem session_lives_from_GetID_to_SendBye :
  forall (T : Type) (bytes : Type) (deser : bytes -> dict T) (s s1 : @Servicer T)
         draws now r rest now' (buffer : bytes),
    GetID draws now s = Some (r, s1, rest) ->
    submit_entry deser (comm_pb2.id r) now' buffer s
      = inl (KeyError (comm_pb2.id r)) /\
    (exists s2,
        submit_entry deser (comm_pb2.id r) now' buffer s1
          = inr (s2, target_clients s <=? S (length (local_averages s))) /\
        local_averages s2 = local_averages s ++ [deser buffer]) /\
    SendBye (comm_pb2.id r) s1 = inr s.
Proof.
  intros T bytes deser s s1 draws now r rest now' buffer Hget.
  pose proof (GetID_spec _ _ _ _ _ _ Hget) as (Hfresh & Hnum & Hids).
  assert (Hs1 : exists ids, s1 = set_user_ids ids s).
  { unfold GetID in Hget.
    destruct (_generate_ID draws s) as [[random_id rest']|]; [|discriminate Hget].
    injection Hget as _ <- _. eexists. reflexivity. }
  destruct Hs1 as [ids ->]. cbn [user_ids set_user_ids] in Hids. subst ids.
  split; [|split].
  - unfold submit_entry, heartbeat. rewrite Hfresh. reflexivity.
  - unfold submit_entry, heartbeat. cbn [user_ids set_user_ids].
    rewrite lookup_insert_eq. unfold append_update.
    cbn [local_averages target_clients set_user_ids set_local_averages
         set_num_clients].
    rewrite length_app, Nat.add_1_r. eexists. split; reflexivity.
  - unfold SendBye. cbn [user_ids set_user_ids].
    rewrite lookup_insert_eq, delete_insert_eq, (delete_id _ _ Hfresh).
    destruct s; reflexivity.
Qed.

Lemma session_lives_from_GetID_to_SendBye_witness :
  exists r s1,
    GetID [9%Z] 500%float two_users = Some (r, s1, []) /\
    submit_entry (fun d : dict float => d) (comm_pb2.id r) 510%float [("a", 2%float)]
                 two_users = inl (KeyError (comm_pb2.id r)) /\
    SendBye (comm_pb2.id r) s1 = inr two_users.
Proof.
  destruct (GetID [9%Z] 500%float two_users) as [[[r s1] rest]|] eqn:E;
    [|vm_compute in E; discriminate E].
  assert (Hrest : match GetID [9%Z] 500%float two_users with
                  | Some (_, _, rest) => rest
                  | None => []
                  end = []) by (vm_compute; reflexivity).
  rewrite E in Hrest. subst rest.
  destruct (session_lives_from_GetID_to_SendBye float (dict float) (fun d => d)
              two_users s1 [9%Z] 500%float r [] 510%float [("a", 2%float)] E)
    as (Hbefore & _ & Hbye).
  exists r, s1. split; [reflexivity|]. split; [exact Hbefore | exact Hbye].
Defined.

(** ** Collecting past the target *)

Section Collecting.
Context {T : Type} `{Tensor T} {bytes : Type}.
Context (serialize_model : dict T -> bytes) (deserialize_model : bytes -> dict T).
Implicit Types (s : @Servicer T) (buffers : list bytes).

Lemma run_appends_aggregate buffers : forall s,
  run serialize_model deserialize_model (map StepAppend buffers ++ [StepAggregate]) s
  = Some (repeat Continue (S (length buffers)),
          aggregate_and_reset
            (fold_left (fun s b => fst (append_update deserialize_model b s))
                       buffers s)).
Proof.
  induction buffers as [|b buffers IH]; intros s; [reflexivity|].
  cbn [map app run perform fold_left length]. rewrite IH. reflexivity.
Qed.

Lemma appends_fields buffers : forall s,
  let s' := fold_left (fun s b => fst (append_update deserialize_model b s))
                      buffers s in
  local_averages s' = local_averages s ++ map deserialize_model buffers /\
  target_clients s' = target_clients s /\
  user_ids s' = user_ids s /\
  (buffers <> [] -> num_clients s' = Some (length (local_averages s') )).
Proof.
  induction buffers as [|b buffers IH] using rev_ind; intros s; cbn zeta.
  - cbn [fold_left map]. rewrite app_nil_r.
    split; [reflexivity|]. split; [reflexivity|]. split; [reflexivity|].
    intros Hne. destruct (Hne eq_refl).
  - rewrite fold_left_app. cbn [fold_left]. destruct (IH s) as (Hla & Htc & Hids & _).
    revert Hla Htc Hids.
    generalize (fold_left (fun s b => fst (append_update deserialize_model b s))
                          buffers s).
    intros s1 Hla Htc Hids. unfold append_update.
    cbn [fst local_averages target_clients user_ids num_clients set_num_clients
         set_local_averages].
    rewrite Hla, map_app, app_assoc. auto.
Qed.

End Collecting.

(** X12: the collection is not bounded by the target.  Whatever
    [target_clients] is, a submission is appended, and the aggregation
    averages every map that is in the collection when it runs, more or
    fewer than the target, and empties the collection. *)
Theorem aggregation_takes_all_collected :
  forall (T : Type) (H : Tensor T) (bytes : Type) (ser : dict T -> bytes)
         (deser : bytes -> dict T) (s : @Servicer T) (buffers : list bytes)
         (m : dict T) (ms : list (dict T)),
    local_averages s ++ map deser buffers = m :: ms ->
    exists s',
      run ser deser (map StepAppend buffers ++ [StepAggregate]) s
        = Some (repeat Continue (S (length buffers)), s') /\
      local_averages s' = [] /\
      state_dict s' = Some (global_average (m :: ms)) /\
      target_clients s' = target_clients s /\
      user_ids s' = user_ids s /\
      (buffers <> [] -> num_clients s' = Some (length (m :: ms))).
Proof.
  intros T H bytes ser deser s buffers m ms Hall.
  eexists. split; [apply run_appends_aggregate|].
  destruct (appends_fields deser buffers s) as (Hla & Htc & Hids & Hnum).
  rewrite Hall in Hla. rewrite Hla in Hnum.
  unfold aggregate_and_reset, _compute_global_average. rewrite Hla.
  cbn [local_averages state_dict target_clients user_ids num_clients
       set_local_averages set_state_dict].
  auto.
Qed.

Lemma aggregation_takes_all_collected_witness :
  exists s',
    run (fun d => d) (fun d => d)
        [StepAppend [("a", 6%float)]; StepAggregate] two_of_five
      = Some ([Continue; Continue], s') /\
    state_dict s' = Some [("a", 4%float)] /\
    target_clients s' = 5.
Proof.
  destruct (aggregation_takes_all_collected float _ (dict float) (fun d => d)
              (fun d => d) two_of_five [[("a", 6%float)]]
              [("a", 2%float)] [[("a", 4%float)]; [("a", 6%float)]] eq_refl)
    as (s' & Hrun & _ & Hsd & Htc & _).
  exists s'. split; [exact Hrun|]. split; [|exact Htc].
  rewrite Hsd. vm_compute. reflexivity.
Defined.

(** ** One round after another *)

Section NextRound.
Context {T : Type} `{Tensor T} {bytes : Type}.
Context (deserialize_model : bytes -> dict T).
Context (clock : nat -> float).
Context (s0 : @Servicer T) (requests : list (string * bytes)).
Implicit Types (w : @World T bytes) (tr : list event).

Lemma finished_fields tr w :
  round_ready s0 requests ->
  reach deserialize_model clock (round_start s0 requests) tr w ->
  all_returned w ->
  local_averages (servicer w) = [] /\
  target_clients (servicer w) = length requests /\
  Forall (fun r => is_Some (user_ids (servicer w) !! fst r)) requests /\
  (requests <> [] ->
   state_dict (servicer w)
     = Some (global_average (collected deserialize_model requests tr)) /\
   collected deserialize_model requests tr
     ≡ₚ map (fun r => deserialize_model (snd r)) requests /\
   num_clients (servicer w) = Some (length requests)).
Proof.
  intros Hready Hreach Hall.
  pose proof (reach_inv _ _ _ _ _ _ Hready Hreach) as Hinv.
  pose proof (inv_length _ _ _ _ _ Hinv) as Hlen.
  assert (Hagg : count aggregated (calls w) = length requests).
  { rewrite <- Hlen. apply count_all. eapply Forall_impl; [exact Hall|].
    intros c Hc. unfold aggregated. rewrite Hc. reflexivity. }
  assert (Happ : count appended (calls w) = length requests).
  { rewrite <- Hlen. apply count_all. eapply Forall_impl; [exact Hall|].
    intros c Hc. unfold appended. rewrite Hc. reflexivity. }
  split; [|split; [|split]].
  - destruct (decide (length requests = 0)) as [E|E].
    + destruct (inv_collecting _ _ _ _ _ Hinv) as [-> _]; [lia|].
      pose proof (inv_appenders _ _ _ _ _ Hinv) as Ha. rewrite Happ, E in Ha.
      unfold collected. apply nil_length_inv in Ha. rewrite Ha. reflexivity.
    + apply (inv_published _ _ _ _ _ Hinv). lia.
  - apply (inv_target _ _ _ _ _ Hinv).
  - rewrite <- (inv_requests _ _ _ _ _ Hinv). apply List.Forall_map.
    exact (inv_registered _ _ _ _ _ Hinv).
  - intros Hne. assert (Hpos : 0 < length requests).
    { destruct requests; [contradiction | simpl; lia]. }
    split; [|split].
    + apply (inv_published _ _ _ _ _ Hinv). lia.
    + eapply collected_all; eauto.
    + rewrite <- Happ. apply (inv_num_clients _ _ _ _ _ Hinv). lia.
Qed.

End NextRound.

(** X13: a finished round leaves the servicer ready for the next one.
    When every call of a round has returned nothing is collected any more,
    the target is unchanged and the callers are still registered, so the
    same clients can start another round with new maps; when that round has
    finished, the snapshot is the average of the new maps alone. *)
Theorem finished_round_starts_the_next :
  forall (T : Type) (H : Tensor T) (bytes : Type) (deser : bytes -> dict T)
         (clock : nat -> float) (s : @Servicer T)
         (requests requests' : list (string * bytes)) tr w,
    round_ready s requests ->
    reach deser clock (round_start s requests) tr w ->
    all_returned w ->
    map fst requests' = map fst requests ->
    round_ready (servicer w) requests' /\
    forall clock' tr' w',
      reach deser clock' (round_start (servicer w) requests') tr' w' ->
      all_returned w' ->
      requests' <> [] ->
      state_dict (servicer w')
        = Some (global_average (collected deser requests' tr')) /\
      collected deser requests' tr' ≡ₚ map (fun r => deser (snd r)) requests'.
Proof.
  intros T H bytes deser clock s requests requests' tr w Hready Hreach Hall Hids.
  destruct (finished_fields deser clock s requests tr w Hready Hreach Hall)
    as (Hla & Htc & Hreg & _).
  assert (Hnext : round_ready (servicer w) requests').
  { split; [exact Hla|]. split.
    - rewrite Htc, <- (length_map fst requests), <- Hids. apply length_map.
    - apply List.Forall_map with (f := fst)
                                 (P := fun k => is_Some (user_ids (servicer w) !! k)).
      rewrite Hids. apply List.Forall_map. exact Hreg. }
  split; [exact Hnext|]. intros clock' tr' w' Hreach' Hall' Hne.
  destruct (finished_fields deser clock' (servicer w) requests' tr' w'
              Hnext Hreach' Hall') as (_ & _ & _ & Hdone).
  destruct (Hdone Hne) as (Hsd & Hperm & _). split; [exact Hsd | exact Hperm].
Qed.

Lemma finished_round_starts_the_next_witness :
  round_ready (servicer (snd (execute (fun d => d) at_500 waiter_first ready_round)))
              [("0x5", [("a", 10%float)]); ("0x7", [("a", 20%float)])].
Proof.
  apply (finished_round_starts_the_next float _ (dict float) (fun d => d) at_500
           two_users ready_requests _ waiter_first_trace _
           two_users_ready waiter_first_reach).
  - unfold all_returned.
    assert (Hpcs : map at_pc
                     (calls (snd (execute (fun d => d) at_500 waiter_first ready_round)))
                   = [Returned; Returned]) by (vm_compute; reflexivity).
    apply List.Forall_forall. intros c Hin.
    apply (List.in_map at_pc) in Hin. rewrite Hpcs in Hin.
    destruct Hin as [E|[E|[]]]; symmetry; exact E.
  - reflexivity.
Defined.

(** ** The barrier and [self.num_clients] *)

Section Raises.
Context {T : Type} `{Tensor T} {bytes : Type}.
Context (deserialize_model : bytes -> dict T).
Context (clock : nat -> float).
Context (s0 : @Servicer T).
Implicit Types (s : @Servicer T) (c : @Call bytes) (w : @World T bytes).
Implicit Types (tr : list event) (e : event) (i : nat).

Lemma raised_ok_wake s c : raised_ok s0 s c -> raised_ok s0 s (wake c).
Proof.
  unfold wake. destruct (at_pc c) eqn:E; try (intros Hc; exact Hc).
  intros [Ha _]. split.
  - intros _. apply Ha. unfold appended. rewrite E. reflexivity.
  - intros x Hx. discriminate Hx.
Qed.

Lemma raised_ok_servicer s s' c :
  (is_Some (num_clients s) -> is_Some (num_clients s')) ->
  raised_ok s0 s c -> raised_ok s0 s' c.
Proof. intros Hn [Ha Hr]. split; [intros Hc; apply Hn, Ha, Hc | exact Hr]. Qed.

Lemma raised_ok_moved s c p :
  (forall x, p <> Raised x) ->
  (appended (move c p) = true -> is_Some (num_clients s)) ->
  raised_ok s0 s (move c p).
Proof.
  intros Hp Ha. split; [exact Ha|]. intros x Hx. cbn [at_pc move] in Hx.
  destruct (Hp x Hx).
Qed.

Lemma step_raised_ok i w e w' :
  dom (user_ids (servicer w)) = dom (user_ids s0) ->
  Forall (raised_ok s0 (servicer w)) (calls w) ->
  step deserialize_model clock i w = Some (e, w') ->
  dom (user_ids (servicer w')) = dom (user_ids s0) /\
  Forall (raised_ok s0 (servicer w')) (calls w') /\
  map request_of (calls w') = map request_of (calls w) /\
  forall j x, e = EvRaise j x ->
              exists c, calls w !! j = Some c /\ x = KeyError (request_id c) /\
                        user_ids s0 !! request_id c = None.
Proof.
  intros Hdom Hok Hstep. unfold step in Hstep.
  destruct (calls w !! i) as [c|] eqn:Hc; [|discriminate Hstep].
  pose proof (Forall_lookup_1 _ _ _ _ Hok Hc) as [Happ Hraised].
  unfold appended in Happ.
  destruct (at_pc c) eqn:Hpc; try discriminate Hstep.
  - destruct (heartbeat (request_id c) (clock i) (servicer w)) as [x|s'] eqn:Hh;
      injection Hstep as <- <-; cbn [servicer calls].
    + unfold heartbeat in Hh.
      destruct (user_ids (servicer w) !! request_id c) eqn:Hu; [discriminate Hh|].
      injection Hh as <-.
      assert (Hnew : user_ids s0 !! request_id c = None).
      { apply not_elem_of_dom. rewrite <- Hdom. apply not_elem_of_dom, Hu. }
      split; [exact Hdom|]. split; [|split].
      * apply Forall_insert; [exact Hok|]. split; [discriminate|].
        intros x [= <-]. split; [reflexivity | exact Hnew].
      * apply requests_insert, Hc.
      * intros j x [= <- <-]. exists c. auto.
    + split; [rewrite (heartbeat_dom _ _ _ _ Hh); exact Hdom|]. split; [|split].
      * apply Forall_insert.
        -- eapply Forall_impl; [exact Hok|]. intros c'.
           apply raised_ok_servicer. unfold heartbeat in Hh.
           destruct (user_ids (servicer w) !! request_id c); [|discriminate Hh].
           injection Hh as <-. auto.
        -- apply raised_ok_moved; [discriminate | discriminate].
      * apply requests_insert, Hc.
      * intros j x [=].
  - unfold append_update in Hstep. cbv beta iota zeta in Hstep.
    injection Hstep as <- <-. cbn [servicer calls].
    assert (Hall : Forall (raised_ok s0
                     (set_num_clients
                        (Some (length (local_averages (servicer w)
                                         ++ [deserialize_model (request_buffer c)])))
                        (set_local_averages
                           (local_averages (servicer w)
                              ++ [deserialize_model (request_buffer c)]) (servicer w))))
                          (<[i := move c AtBarrier]> (calls w))).
    { apply Forall_insert.
      - eapply Forall_impl; [exact Hok|]. intros c'. apply raised_ok_servicer.
        intros _. eexists. reflexivity.
      - apply raised_ok_moved; [discriminate|]. intros _. eexists. reflexivity. }
    split; [exact Hdom|].
    destruct (target_clients (servicer w) <=?
              length (local_averages (servicer w)
                        ++ [deserialize_model (request_buffer c)])).
    + split; [|split].
      * unfold notify_all. apply List.Forall_map.
        eapply Forall_impl; [exact Hall|]. intros c'. apply raised_ok_wake.
      * rewrite requests_notify_all. apply requests_insert, Hc.
      * intros j x [=].
    + split; [exact Hall|]. split; [apply requests_insert, Hc | intros j x [=]].
  - destruct (Happ eq_refl) as [n Hn]. unfold below_target in Hstep.
    rewrite Hn in Hstep.
    destruct (n <? target_clients (servicer w));
      injection Hstep as <- <-; cbn [servicer calls];
      (split; [exact Hdom|]); (split; [|split]);
      first [ apply requests_insert, Hc | intros j x [=]
            | apply Forall_insert; [exact Hok|];
              apply raised_ok_moved; [discriminate|]; intros _; eauto ].
  - destruct (Happ eq_refl) as [n Hn]. unfold below_target in Hstep.
    rewrite Hn in Hstep.
    destruct (n <? target_clients (servicer w));
      injection Hstep as <- <-; cbn [servicer calls];
      (split; [exact Hdom|]); (split; [|split]);
      first [ apply requests_insert, Hc | intros j x [=]
            | apply Forall_insert; [exact Hok|];
              apply raised_ok_moved; [discriminate|]; intros _; eauto ].
  - injection Hstep as <- <-. cbn [servicer calls].
    destruct (aggregate_and_reset_fields (servicer w)) as (_ & Hnum & _).
    split; [rewrite aggregate_and_reset_user_ids; exact Hdom|]. split; [|split].
    + apply Forall_insert.
      * eapply Forall_impl; [exact Hok|]. intros c'. apply raised_ok_servicer.
        rewrite Hnum. auto.
      * apply raised_ok_moved; [discriminate|]. intros _. rewrite Hnum. auto.
    + apply requests_insert, Hc.
    + intros j x [=].
  - injection Hstep as <- <-. cbn [servicer calls].
    split; [exact Hdom|]. split; [|split].
    + apply Forall_insert; [exact Hok|].
      apply raised_ok_moved; [discriminate|]. intros _. auto.
    + apply requests_insert, Hc.
    + intros j x [=].
Qed.

Lemma reach_raised_ok (requests : list (string * bytes)) tr w :
  reach deserialize_model clock (round_start s0 requests) tr w ->
  dom (user_ids (servicer w)) = dom (user_ids s0) /\
  Forall (raised_ok s0 (servicer w)) (calls w) /\
  map request_of (calls w) = requests /\
  forall j x, EvRaise j x ∈ tr ->
              exists r, requests !! j = Some r /\ x = KeyError (fst r) /\
                        user_ids s0 !! fst r = None.
Proof.
  intros Hreach. induction Hreach as [|tr w i e w' Hreach IH Hstep].
  - split; [reflexivity|]. split; [|split].
    + unfold round_start. cbn [servicer calls]. apply List.Forall_map.
      apply List.Forall_forall. intros r _. split; [discriminate|].
      intros x Hx. discriminate Hx.
    + apply requests_start.
    + intros j x Hin. apply not_elem_of_nil in Hin. destruct Hin.
  - destruct IH as (Hdom & Hok & Hreq & Hev).
    destruct (step_raised_ok _ _ _ _ Hdom Hok Hstep) as (Hdom' & Hok' & Hreq' & Hnew).
    split; [exact Hdom'|]. split; [exact Hok'|]. split; [congruence|].
    intros j x Hin. apply elem_of_app in Hin as [Hin|Hin]; [exact (Hev j x Hin)|].
    apply list_elem_of_singleton in Hin.
    destruct (Hnew j x (eq_sym Hin)) as (c & Hc & -> & Hnone).
    exists (request_of c). split; [|split; [reflexivity | exact Hnone]].
    eapply requests_lookup; eauto.
Qed.

End Raises.

(** X14: the barrier never fails on [self.num_clients].  [__init__] does
    not assign the attribute, yet in every interleaving of any number of
    calls on any servicer a call that stands at the loop test of line 126
    has assigned it in its own append: the test has a value there, and no
    [AttributeError] is raised.  A [KeyError] that a call raises at line 112
    is that of its own id, which was not registered when the calls came in,
    and the set of registered ids is the same throughout. *)
Theorem SendMessage_barrier_reads_num_clients :
  forall (T : Type) (H : Tensor T) (bytes : Type) (deser : bytes -> dict T)
         (clock : nat -> float) (s : @Servicer T)
         (requests : list (string * bytes)) tr w,
    reach deser clock (round_start s requests) tr w ->
    (forall i attr, EvRaise i (AttributeError attr) ∉ tr) /\
    (forall i c,
        calls w !! i = Some c ->
        at_pc c = AtBarrier \/ at_pc c = Notified ->
        exists n,
          num_clients (servicer w) = Some n /\
          below_target (servicer w) = inr (n <? target_clients (servicer w))) /\
    (forall i k,
        EvRaise i (KeyError k) ∈ tr ->
        exists r, requests !! i = Some r /\ fst r = k /\ user_ids s !! k = None) /\
    dom (user_ids (servicer w)) = dom (user_ids s).
Proof.
  intros T H bytes deser clock s requests tr w Hreach.
  destruct (reach_raised_ok deser clock s requests tr w Hreach)
    as (Hdom & Hok & _ & Hev).
  split; [|split; [|split; [|exact Hdom]]].
  - intros i attr Hin. destruct (Hev _ _ Hin) as (r & _ & Hx & _). discriminate Hx.
  - intros i c Hc Hpc.
    destruct (Forall_lookup_1 _ _ _ _ Hok Hc) as [Ha _].
    destruct Ha as [n Hn].
    { unfold appended. destruct Hpc as [-> | ->]; reflexivity. }
    exists n. split; [exact Hn|]. unfold below_target. rewrite Hn. reflexivity.
  - intros i k Hin. destruct (Hev _ _ Hin) as (r & Hr & Hx & Hnone).
    injection Hx as ->. exists r. split; [exact Hr|]. split; [reflexivity | exact Hnone].
Qed.

Lemma SendMessage_barrier_reads_num_clients_witness :
  exists r,
    [("0x5", [("a", 2%float)]); ("0xdead", [("a", 4%float)])] !! 1 = Some r /\
    fst r = "0xdead" /\
    user_ids two_users !! "0xdead" = None.
Proof.
  assert (Htr : fst (execute (fun d => d) at_500 [0; 1; 0] stranger_world)
                = [EvHeartbeat 0; EvRaise 1 (KeyError "0xdead"); EvAppend 0 false])
    by (vm_compute; reflexivity).
  pose proof (execute_reach (fun d : dict float => d) at_500 [0; 1; 0] stranger_world)
    as Hreach.
  rewrite Htr in Hreach.
  destruct (SendMessage_barrier_reads_num_clients float _ (dict float) (fun d => d)
              at_500 two_users _ _ _ Hreach) as (_ & _ & Hkey & _).
  apply (Hkey 1 "0xdead").
  apply list_elem_of_further, list_elem_of_here.
Defined.

(** ** A call more than the target *)

Section Stranded.
Context {T : Type} `{Tensor T} {bytes : Type}.
Context (deserialize_model : bytes -> dict T).
Context (clock : nat -> float).
Implicit Types (s : @Servicer T) (w : @World T bytes) (a b c : string * bytes).

Lemma reach_app w0 tr1 w1 tr2 w2 :
  reach deserialize_model clock w0 tr1 w1 ->
  reach deserialize_model clock w1 tr2 w2 ->
  reach deserialize_model clock w0 (tr1 ++ tr2) w2.
Proof.
  intros H1 H2. induction H2 as [|tr w i e w' _ IH Hstep].
  - rewrite app_nil_r. exact H1.
  - rewrite app_assoc. eapply reach_step; eauto.
Qed.

Lemma heartbeat_registered user_id now s :
  is_Some (user_ids s !! user_id) ->
  exists ids,
    heartbeat user_id now s = inr (set_user_ids ids s) /\
    forall k, is_Some (user_ids s !! k) -> is_Some (ids !! k).
Proof.
  intros [u Hu]. unfold heartbeat. rewrite Hu. eexists. split; [reflexivity|].
  intros k. apply registered_insert.
Qed.

Lemma heartbeats_first s a b c :
  is_Some (user_ids s !! fst a) ->
  is_Some (user_ids s !! fst b) ->
  is_Some (user_ids s !! fst c) ->
  exists ids,
    reach deserialize_model clock (round_start s [a; b; c])
          [EvHeartbeat 0; EvHeartbeat 1; EvHeartbeat 2]
          {| servicer := set_user_ids ids s;
             calls := [ {| request_id := fst a; request_buffer := snd a;
                           at_pc := AtAppend |};
                        {| request_id := fst b; request_buffer := snd b;
                           at_pc := AtAppend |};
                        {| request_id := fst c; request_buffer := snd c;
                           at_pc := AtAppend |} ] |}.
Proof.
  intros Ha Hb Hc.
  destruct (heartbeat_registered (fst a) (clock 0) s Ha) as (ids1 & H1 & K1).
  destruct (heartbeat_registered (fst b) (clock 1) (set_user_ids ids1 s))
    as (ids2 & H2 & K2); [apply K1, Hb|].
  destruct (heartbeat_registered (fst c) (clock 2) (set_user_ids ids2 s))
    as (ids3 & H3 & K3); [apply K2, K1, Hc|].
  exists ids3.
  apply (reach_step _ _ _ [EvHeartbeat 0; EvHeartbeat 1]
           {| servicer := set_user_ids ids2 s;
              calls := [ {| request_id := fst a; request_buffer := snd a;
                            at_pc := AtAppend |};
                         {| request_id := fst b; request_buffer := snd b;
                            at_pc := AtAppend |};
                         {| request_id := fst c; request_buffer := snd c;
                            at_pc := AtHeartbeat |} ] |} 2).
  - apply (reach_step _ _ _ [EvHeartbeat 0]
             {| servicer := set_user_ids ids1 s;
                calls := [ {| request_id := fst a; request_buffer := snd a;
                              at_pc := AtAppend |};
                           {| request_id := fst b; request_buffer := snd b;
                              at_pc := AtHeartbeat |};
                           {| request_id := fst c; request_buffer := snd c;
                              at_pc := AtHeartbeat |} ] |} 1).
    + apply (reach_step _ _ _ [] (round_start s [a; b; c]) 0); [apply reach_start|].
      unfold step, round_start.
      cbn [calls servicer map lookup list_lookup at_pc request_id fst snd].
      rewrite H1. reflexivity.
    + unfold step.
      cbn [calls servicer lookup list_lookup at_pc request_id fst snd].
      rewrite H2. reflexivity.
  - unfold step.
    cbn [calls servicer lookup list_lookup at_pc request_id fst snd].
    rewrite H3. reflexivity.
Qed.

End Stranded.

(** X15: a call more than the target leaves a caller waiting.  On a
    servicer that collects for two clients, let three registered clients
    call.  There is an execution in which the first caller waits, the second
    completes the count, notifies, publishes the average of the two maps and
    returns, the third appends before the first has looked at the count
    again, and the first, finding one map collected, waits again: its map is
    in the published average, its call has not returned, the third map is
    left in the collection, and no thread can take a step. *)
Theorem SendMessage_third_caller_strands_waiter :
  forall (T : Type) (H : Tensor T) (bytes : Type) (deser : bytes -> dict T)
         (clock : nat -> float) (s : @Servicer T) (a b c : string * bytes),
    local_averages s = [] ->
    target_clients s = 2 ->
    is_Some (user_ids s !! fst a) ->
    is_Some (user_ids s !! fst b) ->
    is_Some (user_ids s !! fst c) ->
    exists tr w,
      reach deser clock (round_start s [a; b; c]) tr w /\
      map at_pc (calls w) = [Waiting; Returned; Waiting] /\
      occurrences is_publish tr = 1 /\
      state_dict (servicer w)
        = Some (global_average [deser (snd a); deser (snd b)]) /\
      local_averages (servicer w) = [deser (snd c)] /\
      forall i, step deser clock i w = None.
Proof.
  intros T H bytes deser clock s a b c Hla Htc Ha Hb Hc.
  destruct (heartbeats_first deser clock s a b c Ha Hb Hc) as (ids & Hfirst).
  pose proof (execute_reach deser clock [0; 0; 1; 1; 1; 1; 2; 2; 0]
                {| servicer := set_user_ids ids s;
                   calls := [ {| request_id := fst a; request_buffer := snd a;
                                 at_pc := AtAppend |};
                              {| request_id := fst b; request_buffer := snd b;
                                 at_pc := AtAppend |};
                              {| request_id := fst c; request_buffer := snd c;
                                 at_pc := AtAppend |} ] |}) as Hrest.
  eexists _, _. split; [exact (reach_app deser clock _ _ _ _ _ Hfirst Hrest)|].
  destruct s as [la nc tc sd m ids0]. cbn [local_averages target_clients] in Hla, Htc.
  subst la tc. clear Hfirst Hrest.
  split; [reflexivity|]. split; [reflexivity|]. split; [reflexivity|].
  split; [reflexivity|].
  intros [|[|[|i]]]; reflexivity.
Qed.

Lemma SendMessage_third_caller_strands_waiter_witness :
  exists tr w,
    reach (fun d : dict float => d) at_500
          (round_start two_users
             [("0x5", [("a", 2%float)]); ("0x7", [("a", 4%float)]);
              ("0x5", [("a", 6%float)])]) tr w /\
    map at_pc (calls w) = [Waiting; Returned; Waiting] /\
    state_dict (servicer w) = Some [("a", 3%float)].
Proof.
  destruct (SendMessage_third_caller_strands_waiter float _ (dict float)
              (fun d => d) at_500 two_users
              ("0x5", [("a", 2%float)]) ("0x7", [("a", 4%float)])
              ("0x5", [("a", 6%float)]))
    as (tr & w & Hreach & Hpcs & _ & Hsd & _).
  - reflexivity.
  - reflexivity.
  - vm_compute. eexists. reflexivity.
  - vm_compute. eexists. reflexivity.
  - vm_compute. eexists. reflexivity.
  - exists tr, w. split; [exact Hreach|]. split; [exact Hpcs|].
    rewrite Hsd. vm_compute. reflexivity.
Defined.
